(** * django-safe-migrations: a shallow embedding of the analyzer core

    The model follows the Python sources of [django_safe_migrations]:
    [analyzer.py], [conf.py], [baseline.py], [rules/add_field.py],
    [rules/alter_field.py], [rules/graph.py] and [utils.py].  Django
    objects (fields, operations, migrations, the migration loader) are
    records and inductive types carrying the attributes the code reads. *)

From Stdlib Require Import Strings.String Strings.Ascii Structures.OrdersEx.
From stdpp Require Import base list strings sorting gmap pretty.

Open Scope string_scope.

(** ** Severity and Issue ([rules/base.py]) *)

Inductive Severity := ERROR | WARNING | INFO.

#[global] Instance Severity_eq_dec : EqDecision Severity.
Proof. solve_decision. Defined.

(** The fields of [Issue], as constructed in [rules/graph.py] and read in
    [analyzer.py] and [baseline.py]. *)
Record Issue := mkIssue {
  rule_id : string;
  severity : Severity;
  operation : string;
  message : string;
  suggestion : option string;
  file_path : option string;
  line_number : option nat;
  app_label : option string;
  migration_name : option string
}.

(** ** Django fields and operations *)

(** A Django model field, with the attributes the rules read through
    [getattr]: [default = None] stands for [NOT_PROVIDED];
    [db_default = None] stands for an absent attribute or [NOT_PROVIDED];
    [db_constraint = None] stands for a field without that attribute (not a
    relation). *)
Record Field := mkField {
  field_class : string;
  null : bool;
  default : option string;
  db_default : option string;
  primary_key : bool;
  db_constraint : option bool;
  max_length : option nat;
  unique : bool
}.

(** [Field.has_default()] in Django: the default is not [NOT_PROVIDED]. *)
Definition has_default_method (f : Field) : bool :=
  match default f with Some _ => true | None => false end.

Inductive Operation :=
| AddField (model_name name : string) (field : Field)
| AlterField (model_name name : string) (field : Field)
| RemoveField (model_name name : string)
| RunSQL (sql : string) (reverse_sql : option string)
| OtherOperation (op_type : string).

(** [utils.format_operation_name] *)
Definition format_operation_name (op : Operation) : string :=
  match op with
  | AddField m n _ => "AddField(" ++ m ++ "." ++ n ++ ")"
  | AlterField m n _ => "AlterField(" ++ m ++ "." ++ n ++ ")"
  | RemoveField m n => "RemoveField(" ++ m ++ "." ++ n ++ ")"
  | RunSQL _ _ => "RunSQL"
  | OtherOperation t => t
  end.

(** A migration: [mig_file] is what [utils.get_migration_file_path]
    finds for its module, and [mig_line_of idx] what
    [utils.get_operation_line_number] finds for operation [idx] in that
    file (both best-effort, [None] when not found). *)
Record Migration := mkMigration {
  mig_file : option string;
  mig_line_of : nat -> option nat;
  mig_app_label : option string;
  mig_name : option string;
  operations : list Operation;
  replaces : list (string * string)
}.

(** ** Rules ([rules/base.py]) *)

Module BaseRule.
(** A rule: its class attributes and its [check] method.  [check] gets
    the operation, the migration, the database vendor, and the optional
    [old_field] keyword argument. *)
Record t := mk {
  rule_id : string;
  severity : Severity;
  db_vendors : list string;
  get_suggestion : Operation -> string;
  check : Operation -> Migration -> string -> option Field -> option Issue
}.

(** Modelled from the spec: [BaseRule.applies_to_db] (rules/base.py is not
    in the sources): a rule with a non-empty vendor allow-list applies
    only to the listed vendors. *)
Definition applies_to_db (r : t) (vendor : string) : bool :=
  match db_vendors r with
  | [] => true
  | vs => bool_decide (vendor ∈ vs)
  end.

(** Modelled from the spec: [BaseRule.create_issue] (rules/base.py is not
    in the sources): the Issue carries the rule's id and default severity,
    the message, the operation signature and the remediation text; all
    location and scope fields are left to the Analyzer. *)
Definition create_issue (rid : string) (sev : Severity)
    (get_suggestion : Operation -> string) (op : Operation) (msg : string)
    : Issue :=
  mkIssue rid sev (format_operation_name op) msg
    (Some (get_suggestion op)) None None None None.
End BaseRule.

(** ** Configuration ([conf.py]) *)

(** [RULE_CATEGORIES] *)
Definition RULE_CATEGORIES : list (string * list string) := [
  ("postgresql", ["SM005"; "SM010"; "SM011"; "SM012"; "SM013"; "SM018"]);
  ("mysql", []);
  ("sqlite", []);
  ("indexes", ["SM010"; "SM011"; "SM018"]);
  ("constraints", ["SM009"; "SM011"; "SM015"; "SM017"]);
  ("destructive", ["SM002"; "SM003"; "SM009"]);
  ("locking", ["SM004"; "SM005"; "SM010"; "SM011"; "SM013"]);
  ("data-loss", ["SM002"; "SM003"; "SM009"]);
  ("reversibility", ["SM007"; "SM016"; "SM017"]);
  ("data-migrations", ["SM007"; "SM008"; "SM016"; "SM017"]);
  ("high-risk", ["SM001"; "SM002"; "SM003"; "SM010"; "SM011"; "SM018"]);
  ("informational", ["SM006"; "SM014"; "SM019"]);
  ("naming", ["SM019"]);
  ("schema-changes", ["SM001"; "SM002"; "SM003"; "SM004"; "SM006"; "SM013"; "SM014"])
].

(** One entry of [APP_RULES]: each key of the per-app dict is [None] when
    the key is absent.  [RULE_SEVERITY] is kept already converted to
    [Severity]. *)
Record AppConfig := mkAppConfig {
  app_DISABLED_RULES : option (list string);
  app_ENABLED_CATEGORIES : option (list string);
  app_DISABLED_CATEGORIES : option (list string);
  app_RULE_SEVERITY : option (gmap string Severity)
}.

(** The [SAFE_MIGRATIONS] settings merged with [DEFAULTS] ([get_config]);
    [RULE_SEVERITY] is the result of [get_severity_overrides]. *)
Record Config := mkConfig {
  DISABLED_RULES : list string;
  DISABLED_CATEGORIES : list string;
  ENABLED_CATEGORIES : list string;
  RULE_SEVERITY : gmap string Severity;
  EXCLUDED_APPS : list string;
  APP_RULES : gmap string AppConfig
}.

Definition DEFAULTS : Config := {|
  DISABLED_RULES := []; DISABLED_CATEGORIES := []; ENABLED_CATEGORIES := [];
  RULE_SEVERITY := ∅;
  EXCLUDED_APPS := ["admin"; "auth"; "contenttypes"; "sessions"; "messages";
                    "staticfiles"];
  APP_RULES := ∅ |}.

(** Python truthiness of a list. *)
Definition nonempty {A} (l : list A) : bool :=
  match l with [] => false | _ => true end.

Definition get_rules_in_category (category : string) : list string :=
  match list_find (fun p => p.1 = category) RULE_CATEGORIES with
  | Some (_, (_, rules)) => rules
  | None => []
  end.

(** The set of [get_rules_from_categories], as a list with the same
    members. *)
Definition get_rules_from_categories (categories : list string) : list string :=
  concat (map get_rules_in_category categories).

Definition is_rule_disabled (cfg : Config) (rid : string) : bool :=
  bool_decide (rid ∈ DISABLED_RULES cfg).

Definition get_rule_severity (cfg : Config) (rid : string) (dflt : Severity)
    : Severity :=
  match RULE_SEVERITY cfg !! rid with Some s => s | None => dflt end.

Definition is_rule_disabled_by_category (cfg : Config) (rid : string) : bool :=
  if nonempty (ENABLED_CATEGORIES cfg)
     && bool_decide (rid ∉ get_rules_from_categories (ENABLED_CATEGORIES cfg))
  then true
  else if nonempty (DISABLED_CATEGORIES cfg)
          && bool_decide (rid ∈ get_rules_from_categories (DISABLED_CATEGORIES cfg))
  then true
  else false.

Definition is_rule_enabled (cfg : Config) (rid : string) : bool :=
  if is_rule_disabled cfg rid then false
  else if is_rule_disabled_by_category cfg rid then false
  else true.

(** [app_config.get(key, [])] *)
Definition get_list (o : option (list string)) : list string :=
  match o with Some l => l | None => [] end.

(** Truthiness of the per-app dict: it has at least one key. *)
Definition app_config_truthy (ac : AppConfig) : bool :=
  match ac with
  | mkAppConfig None None None None => false
  | _ => true
  end.

Definition get_app_config (cfg : Config) (app : string) : option AppConfig :=
  APP_RULES cfg !! app.

Definition is_rule_enabled_for_app (cfg : Config) (rid : string)
    (app : option string) : bool :=
  match app with
  | None => is_rule_enabled cfg rid
  | Some a =>
      match get_app_config cfg a with
      | None => is_rule_enabled cfg rid
      | Some ac =>
          if negb (app_config_truthy ac) then is_rule_enabled cfg rid
          else if bool_decide (rid ∈ get_list (app_DISABLED_RULES ac)) then false
          else
            let app_enabled := get_list (app_ENABLED_CATEGORIES ac) in
            let app_disabled := get_list (app_DISABLED_CATEGORIES ac) in
            if nonempty app_enabled
               && bool_decide (rid ∉ get_rules_from_categories app_enabled)
            then false
            else if nonempty app_disabled
                    && bool_decide (rid ∈ get_rules_from_categories app_disabled)
            then false
            else is_rule_enabled cfg rid
      end
  end.

(** ** Rules ([rules/add_field.py], [rules/alter_field.py]) *)

(** The remediation texts ([get_suggestion]) are multi-line templates; the
    model keeps their first line, which no claim depends on. *)

(** SM001, [NotNullWithoutDefaultRule.check] *)
Definition NotNullWithoutDefaultRule_suggestion (op : Operation) : string :=
  "Safe pattern for adding NOT NULL field:".

Definition NotNullWithoutDefaultRule_check (op : Operation) (m : Migration)
    (db_vendor : string) (old_field : option Field) : option Issue :=
  match op with
  | AddField model_name field_name field =>
      let is_not_null := negb (null field) in
      let has_default := has_default_method field in
      let has_default := if has_default then true else has_default_method field in
      let has_default :=
        match db_default field with Some _ => true | None => has_default end in
      let is_auto :=
        primary_key field
        || bool_decide (field_class field ∈ ["AutoField"; "BigAutoField";
                                             "SmallAutoField"]) in
      let is_relation_no_constraint :=
        match db_constraint field with Some b => negb b | None => false end in
      if is_not_null && negb has_default && negb is_auto
         && negb is_relation_no_constraint
      then Some (BaseRule.create_issue "SM001" ERROR
                   NotNullWithoutDefaultRule_suggestion op
                   ("Adding NOT NULL field '" ++ field_name ++ "' to '"
                    ++ model_name ++ "' without a default value will lock the table"))
      else None
  | _ => None
  end.

Definition NotNullWithoutDefaultRule : BaseRule.t :=
  BaseRule.mk "SM001" ERROR [] NotNullWithoutDefaultRule_suggestion
    NotNullWithoutDefaultRule_check.

(** SM013, [AlterVarcharLengthRule.check] *)
Definition AlterVarcharLengthRule_suggestion (op : Operation) : string :=
  "VARCHAR length changes in PostgreSQL:".

Definition AlterVarcharLengthRule_check (op : Operation) (m : Migration)
    (db_vendor : string) (old_field : option Field) : option Issue :=
  let mk := BaseRule.create_issue "SM013" WARNING
              AlterVarcharLengthRule_suggestion op in
  match op with
  | AlterField model_name name field =>
      if bool_decide (field_class field ≠ "CharField") then None else
      match max_length field with
      | None => None
      | Some new_max_length =>
          let generic :=
            Some (mk ("Altering CharField '" ++ name ++ "' on '" ++ model_name
                      ++ "' - if decreasing max_length, this will rewrite the table")) in
          match old_field with
          | Some old =>
              if bool_decide (field_class old ≠ "CharField") then None else
              match max_length old with
              | Some old_max_length =>
                  if bool_decide (old_max_length <= new_max_length) then None
                  else Some (mk ("Decreasing CharField '" ++ name
                                 ++ "' max_length on '" ++ model_name ++ "' from "
                                 ++ pretty old_max_length ++ " to "
                                 ++ pretty new_max_length ++ " requires table rewrite"))
              | None => generic
              end
          | None => generic
          end
      end
  | _ => None
  end.

Definition AlterVarcharLengthRule : BaseRule.t :=
  BaseRule.mk "SM013" WARNING ["postgresql"] AlterVarcharLengthRule_suggestion
    AlterVarcharLengthRule_check.

(** SM020, [AlterFieldNullFalseRule.check] *)
Definition AlterFieldNullFalseRule_suggestion (op : Operation) : string :=
  "Safe pattern for adding NOT NULL constraint:".

Definition AlterFieldNullFalseRule_check (op : Operation) (m : Migration)
    (db_vendor : string) (old_field : option Field) : option Issue :=
  match op with
  | AlterField model_name name field =>
      let is_not_null := negb (null field) in
      if negb is_not_null then None else
      let emit :=
        Some (BaseRule.create_issue "SM020" ERROR
                AlterFieldNullFalseRule_suggestion op
                ("AlterField on '" ++ name ++ "' sets null=False. "
                 ++ "Ensure all existing rows in '" ++ model_name
                 ++ "' have non-NULL values, or the migration will fail.")) in
      match old_field with
      | Some old => if negb (null old) then None else emit
      | None => emit
      end
  | _ => None
  end.

Definition AlterFieldNullFalseRule : BaseRule.t :=
  BaseRule.mk "SM020" ERROR [] AlterFieldNullFalseRule_suggestion
    AlterFieldNullFalseRule_check.

(** SM021, [AlterFieldUniqueRule.check] *)
Definition AlterFieldUniqueRule_suggestion (op : Operation) : string :=
  "Safe pattern for adding unique constraint (PostgreSQL):".

Definition AlterFieldUniqueRule_check (op : Operation) (m : Migration)
    (db_vendor : string) (old_field : option Field) : option Issue :=
  match op with
  | AlterField model_name name field =>
      if negb (unique field) then None else
      let emit :=
        Some (BaseRule.create_issue "SM021" ERROR
                AlterFieldUniqueRule_suggestion op
                ("Adding unique=True to '" ++ name ++ "' on '" ++ model_name
                 ++ "' via AlterField will scan and lock "
                 ++ "the entire table during index creation.")) in
      match old_field with
      | Some old => if unique old then None else emit
      | None => emit
      end
  | _ => None
  end.

Definition AlterFieldUniqueRule : BaseRule.t :=
  BaseRule.mk "SM021" ERROR ["postgresql"] AlterFieldUniqueRule_suggestion
    AlterFieldUniqueRule_check.

(** SM029, [DropNotNullRule.check] *)
Definition DropNotNullRule_suggestion (op : Operation) : string :=
  let field_name := match op with
                    | AddField _ n _ | AlterField _ n _ | RemoveField _ n => n
                    | _ => "field_name"
                    end in
  "Before dropping NOT NULL on '" ++ field_name ++ "':".

Definition DropNotNullRule_check (op : Operation) (m : Migration)
    (db_vendor : string) (old_field : option Field) : option Issue :=
  match op with
  | AlterField model_name name field =>
      let is_nullable := null field in
      if negb is_nullable then None else
      match old_field with
      | Some old =>
          let was_not_null := negb (null old) in
          if negb was_not_null then None
          else Some (BaseRule.create_issue "SM029" WARNING
                       DropNotNullRule_suggestion op
                       ("AlterField on '" ++ name ++ "' changes '" ++ model_name
                        ++ "' from NOT NULL to nullable. "
                        ++ "Ensure application code handles NULL values correctly."))
      | None => None
      end
  | _ => None
  end.

Definition DropNotNullRule : BaseRule.t :=
  BaseRule.mk "SM029" WARNING [] DropNotNullRule_suggestion DropNotNullRule_check.

(** ** The analyzer ([analyzer.py]) *)

(** A [MigrationAnalyzer] after [__init__]: the vendor, the optional
    explicit [disabled_rules] list, and the resolved rule list [self.rules]. *)
Record Analyzer := mkAnalyzer {
  db_vendor : string;
  disabled_rules : option (list string);
  rules : list BaseRule.t
}.

(** [MigrationAnalyzer._is_rule_disabled] *)
Definition _is_rule_disabled (cfg : Config) (a : Analyzer) (rid : string) : bool :=
  match disabled_rules a with
  | Some l => bool_decide (rid ∈ l)
  | None => is_rule_disabled cfg rid
  end.

(** The body of [if issue:] in [analyze_migration]: severity override, then
    the four enrichment assignments, each only when the rule left the field
    as [None]. *)
Definition enrich_issue (cfg : Config) (fp : option string) (ln : option nat)
    (app : option string) (name : option string) (i : Issue) : Issue :=
  {| rule_id := rule_id i;
     severity := get_rule_severity cfg (rule_id i) (severity i);
     operation := operation i;
     message := message i;
     suggestion := suggestion i;
     file_path := match file_path i with None => fp | x => x end;
     line_number := match line_number i with None => ln | x => x end;
     app_label := match app_label i with None => app | x => x end;
     migration_name := match migration_name i with None => name | x => x end |}.

(** The inner loop [for rule in self.rules]; the rule's [check] is called
    without [old_field]. *)
Fixpoint run_rules (cfg : Config) (a : Analyzer) (m : Migration)
    (fp : option string) (app name : option string) (idx : nat)
    (op : Operation) (rs : list BaseRule.t) : list Issue :=
  match rs with
  | [] => []
  | r :: rs' =>
      if _is_rule_disabled cfg a (BaseRule.rule_id r) then
        run_rules cfg a m fp app name idx op rs'
      else if negb (BaseRule.applies_to_db r (db_vendor a)) then
        run_rules cfg a m fp app name idx op rs'
      else
        match BaseRule.check r op m (db_vendor a) None with
        | Some i =>
            enrich_issue cfg fp (mig_line_of m idx) app name i
            :: run_rules cfg a m fp app name idx op rs'
        | None => run_rules cfg a m fp app name idx op rs'
        end
  end.

(** The outer loop [for idx, operation in enumerate(operations)]. *)
Fixpoint run_operations (cfg : Config) (a : Analyzer) (m : Migration)
    (fp : option string) (app name : option string) (idx : nat)
    (ops : list Operation) : list Issue :=
  match ops with
  | [] => []
  | op :: ops' =>
      (run_rules cfg a m fp app name idx op (rules a)
      ++ run_operations cfg a m fp app name (S idx) ops')%list
  end.

(** [MigrationAnalyzer.analyze_migration] *)
Definition analyze_migration (cfg : Config) (a : Analyzer) (m : Migration)
    (app_label migration_name : option string) : list Issue :=
  let fp := mig_file m in
  let app := match app_label with None => mig_app_label m | x => x end in
  let name := match migration_name with None => mig_name m | x => x end in
  run_operations cfg a m fp app name 0 (operations m).

(** ** Baseline ([baseline.py]) *)

(** A baseline entry, as read back by [load_baseline]: the results of
    [entry.get(...)] for its four keys ([None] for a JSON null or a missing
    key). *)
Record BaselineEntry := mkEntry {
  e_rule_id : option string;
  e_app_label : option string;
  e_migration_name : option string;
  e_operation : option string
}.

Definition BaselineKey : Type :=
  option string * option string * option string * option string.

(** [generate_baseline]: the entries written to the file (the JSON round
    trip through [load_baseline] returns them unchanged). *)
Definition generate_baseline (issues : list Issue) : list BaselineEntry :=
  map (fun i => mkEntry (Some (rule_id i)) (app_label i) (migration_name i)
                        (Some (operation i))) issues.

Definition entry_key (e : BaselineEntry) : BaselineKey :=
  (e_rule_id e, e_app_label e, e_migration_name e, e_operation e).

Definition issue_key (i : Issue) : BaselineKey :=
  (Some (rule_id i), app_label i, migration_name i, Some (operation i)).

(** [filter_baselined_issues] *)
Definition filter_baselined_issues (issues : list Issue)
    (baseline : list BaselineEntry) : list Issue :=
  let baseline_keys := map entry_key baseline in
  filter (fun i => issue_key i ∉ baseline_keys) issues.

(** ** Python's ordering of strings *)

(** [a <= b] on Python [str]: lexicographic by code point, which is
    [String_as_OT.compare] on ASCII strings. *)
Definition str_le (a b : string) : Prop := String_as_OT.compare a b ≠ Gt.

#[global] Instance str_le_dec : RelDecision str_le.
Proof.
  intros a b. unfold str_le.
  destruct (String_as_OT.compare a b); [left | left | right]; congruence.
Defined.

(** Python's [sorted] on strings (stable; [merge_sort] is stable too). *)
Definition py_sorted (l : list string) : list string := merge_sort str_le l.

(** Comparison of pairs by their first component, [key=lambda x: x[0]]. *)
Definition name_le {A} (x y : string * A) : Prop := str_le x.1 y.1.

#[global] Instance name_le_dec {A} : RelDecision (@name_le A).
Proof. intros x y. unfold name_le. apply _. Defined.

(** [list.sort(key=lambda x: x[0])] on pairs keyed by a string. *)
Definition sort_by_name {A} (l : list (string * A)) : list (string * A) :=
  merge_sort name_le l.

(** [", ".join(xs)] *)
Fixpoint join (sep : string) (xs : list string) : string :=
  match xs with
  | [] => EmptyString
  | [x] => x
  | x :: xs' => x ++ sep ++ join sep xs'
  end.

(** ** Graph-level check ([rules/graph.py]) *)

Definition nl : string := String (Ascii.ascii_of_nat 10) EmptyString.
Definition dq : string := String (Ascii.ascii_of_nat 34) EmptyString.

(** [get_merge_suggestion] *)
Definition get_merge_suggestion (app : string) (leaf_migrations : list string)
    : string :=
  let migrations_str :=
    join (nl ++ "        ")
      (map (fun m => "(" ++ dq ++ app ++ dq ++ ", " ++ dq ++ m ++ dq ++ "),")
           (py_sorted leaf_migrations)) in
  "Create a merge migration to resolve the conflict:" ++ nl ++ nl
  ++ "1. Automatic (recommended):" ++ nl
  ++ "   python manage.py makemigrations --merge " ++ app ++ nl ++ nl
  ++ "   Django will create a migration like:" ++ nl
  ++ "   class Migration(migrations.Migration):" ++ nl
  ++ "       dependencies = [" ++ nl
  ++ "        " ++ migrations_str ++ nl
  ++ "       ]" ++ nl
  ++ "       operations = []" ++ nl ++ nl
  ++ "2. Manual (if auto-merge fails):" ++ nl
  ++ "   Create a new migration file in " ++ app ++ "/migrations/ with:" ++ nl ++ nl
  ++ "   from django.db import migrations" ++ nl ++ nl
  ++ "   class Migration(migrations.Migration):" ++ nl
  ++ "       dependencies = [" ++ nl
  ++ "        " ++ migrations_str ++ nl
  ++ "       ]" ++ nl ++ nl
  ++ "       # Empty operations - this just merges the branches" ++ nl
  ++ "       operations = []" ++ nl ++ nl
  ++ "3. Prevention:" ++ nl
  ++ "   - Coordinate migration creation across branches" ++ nl
  ++ "   - Rebase feature branches frequently" ++ nl
  ++ "   - Consider using migration locking in CI" ++ nl.

Module MissingMergeMigrationRule.
Definition rule_id : string := "SM027".
Definition severity : Severity := ERROR.

(** The operation-level [check]: always [None]. *)
Definition check (op : Operation) (m : Migration) (db_vendor : string)
    (old_field : option Field) : option Issue := None.

(** [check_graph] *)
Definition check_graph (app : string) (leaf_migrations : list string)
    : option Issue :=
  if bool_decide (length leaf_migrations <= 1) then None
  else
    let migration_list := join ", " (py_sorted leaf_migrations) in
    Some (mkIssue rule_id severity
            ("Multiple leaf migrations in " ++ app)
            ("App '" ++ app ++ "' has " ++ pretty (length leaf_migrations)
             ++ " leaf migrations: " ++ migration_list
             ++ ". Create a merge migration with: "
             ++ "python manage.py makemigrations --merge " ++ app)
            (Some (get_merge_suggestion app leaf_migrations))
            None None (Some app) None).
End MissingMergeMigrationRule.

(** ** Whole-app and whole-project analysis ([analyzer.py]) *)

(** A computation that may raise [KeyError] (from Django's
    [MigrationLoader.get_migration], which reads [graph.nodes]). *)
Inductive Result (A : Type) :=
| Ok (a : A)
| KeyError (key : string * string).
Arguments Ok {A} a.
Arguments KeyError {A} key.

Definition res_bind {A B} (r : Result A) (f : A -> Result B) : Result B :=
  match r with Ok a => f a | KeyError k => KeyError k end.

(** Python's left-to-right evaluation of a list comprehension whose body
    may raise. *)
Fixpoint res_mapM {A B} (f : A -> Result B) (l : list A) : Result (list B) :=
  match l with
  | [] => Ok []
  | x :: l' =>
      res_bind (f x) (fun y => res_bind (res_mapM f l') (fun ys => Ok (y :: ys)))
  end.

(** The part of a run a caller sees when it returns normally. *)
Definition ok_part {A} (r : Result A) : option A :=
  match r with Ok a => Some a | KeyError _ => None end.

(** Django's [MigrationLoader(None, ignore_no_migrations=True)] as the
    analyzer reads it: the keys of [disk_migrations] in the dict's iteration
    order, and [graph.nodes], from which [get_migration] reads.  Django
    removes the migrations replaced by an applicable squash from
    [graph.nodes] while they stay in [disk_migrations]. *)
Record Loader := mkLoader {
  disk_migrations : list (string * string);
  graph_nodes : string * string -> option Migration
}.

Definition get_migration (ld : Loader) (key : string * string) : Result Migration :=
  match graph_nodes ld key with Some m => Ok m | None => KeyError key end.

Section Analysis.
Variable cfg : Config.
Variable a : Analyzer.

(** [app_migrations = [(name, loader.get_migration(app, name)) for (app,
    name) in loader.disk_migrations.keys() if app == app_label]] *)
Definition app_migrations (ld : Loader) (app_label : string)
    : Result (list (string * Migration)) :=
  res_mapM (fun k => res_bind (get_migration ld k) (fun m => Ok (k.2, m)))
    (filter (fun k => k.1 = app_label) (disk_migrations ld)).

(** [MigrationAnalyzer.analyze_app] *)
Definition analyze_app (ld : Loader) (app_label : string) : Result (list Issue) :=
  res_bind (app_migrations ld app_label) (fun ms =>
    Ok (concat (map (fun p => analyze_migration cfg a p.2 (Some app_label)
                                                (Some p.1))
                    (sort_by_name ms)))).

(** The loop [for app_label in sorted(apps_with_migrations)]. *)
Fixpoint analyze_apps (ld : Loader) (exclude : list string)
    (apps : list string) : Result (list Issue) :=
  match apps with
  | [] => Ok []
  | app :: apps' =>
      if bool_decide (app ∈ exclude) then analyze_apps ld exclude apps'
      else res_bind (analyze_app ld app) (fun is1 =>
             res_bind (analyze_apps ld exclude apps') (fun is2 =>
               Ok (is1 ++ is2)%list))
  end.

(** [MigrationAnalyzer.analyze_all] *)
Definition analyze_all (ld : Loader) (exclude_apps : option (list string))
    : Result (list Issue) :=
  let exclude := match exclude_apps with
                 | None => EXCLUDED_APPS cfg | Some l => l end in
  let apps_with_migrations := remove_dups (map fst (disk_migrations ld)) in
  analyze_apps ld exclude (py_sorted apps_with_migrations).
End Analysis.

(** ** Concrete inputs *)

Definition CharField (len : nat) (is_null : bool) : Field :=
  {| field_class := "CharField"; null := is_null; default := None;
     db_default := None; primary_key := false; db_constraint := None;
     max_length := Some len; unique := false |}.

Definition mig (app name : string) (ops : list Operation)
    (repl : list (string * string)) : Migration :=
  {| mig_file := Some (app ++ "/migrations/" ++ name ++ ".py");
     mig_line_of := fun idx => Some (10 + 5 * idx);
     mig_app_label := Some app; mig_name := Some name;
     operations := ops; replaces := repl |}.

(** Changeset A adds the nullable column [user.email]; B, which depends on A,
    makes it NOT NULL. *)
Definition op_A : Operation := AddField "user" "email" (CharField 255 true).
Definition op_B : Operation := AlterField "user" "email" (CharField 255 false).
Definition mig_A : Migration := mig "testapp" "0001_add_email" [op_A] [].
Definition mig_B : Migration := mig "testapp" "0002_email_not_null" [op_B] [].

Definition pg_analyzer (rs : list BaseRule.t) : Analyzer :=
  {| db_vendor := "postgresql"; disabled_rules := None; rules := rs |}.

Definition alter_rules : list BaseRule.t :=
  [AlterVarcharLengthRule; AlterFieldNullFalseRule; AlterFieldUniqueRule;
   DropNotNullRule].

(** What the analyzer may do to an issue [i] returned by a rule: only the
    severity changes, and each of the four context fields is filled from the
    analyzer's value exactly when the rule left it [None]. *)
Definition enrichment_frame (i j : Issue) (fp : option string)
    (ln : option nat) (app name : option string) : Prop :=
  rule_id j = rule_id i /\ operation j = operation i /\
  message j = message i /\ suggestion j = suggestion i /\
  file_path j = (match file_path i with Some _ => file_path i | None => fp end) /\
  line_number j = (match line_number i with Some _ => line_number i | None => ln end) /\
  app_label j = (match app_label i with Some _ => app_label i | None => app end) /\
  migration_name j = (match migration_name i with Some _ => migration_name i | None => name end).

Definition no_issue : Issue :=
  mkIssue EmptyString INFO EmptyString EmptyString None None None None None.

(** [s] occurs in [t]. *)
Definition substring_of (s t : string) : Prop :=
  ∃ pre post, t = (pre ++ s ++ post).

Definition sub_list (l l' : list string) : Prop := ∀ x, x ∈ l → x ∈ l'.

(** A per-app key's list grows: an absent key may be added with any list. *)
Definition opt_sub (o o' : option (list string)) : Prop :=
  match o, o' with
  | None, _ => True
  | Some l, Some l' => sub_list l l'
  | Some _, None => False
  end.

Definition empty_app_config : AppConfig := mkAppConfig None None None None.

Definition app_more_disables (ac ac' : AppConfig) : Prop :=
  opt_sub (app_DISABLED_RULES ac) (app_DISABLED_RULES ac') /\
  app_ENABLED_CATEGORIES ac' = app_ENABLED_CATEGORIES ac /\
  opt_sub (app_DISABLED_CATEGORIES ac) (app_DISABLED_CATEGORIES ac') /\
  app_RULE_SEVERITY ac' = app_RULE_SEVERITY ac.

(** [c'] is [c] with entries added to disable lists: the global
    [DISABLED_RULES] and [DISABLED_CATEGORIES], and the per-app
    [DISABLED_RULES] and [DISABLED_CATEGORIES] (creating the app's entry or
    key where it was missing); everything else is unchanged. *)
Definition more_disables (c c' : Config) : Prop :=
  sub_list (DISABLED_RULES c) (DISABLED_RULES c') /\
  sub_list (DISABLED_CATEGORIES c) (DISABLED_CATEGORIES c') /\
  ENABLED_CATEGORIES c' = ENABLED_CATEGORIES c /\
  ∀ app, match APP_RULES c !! app, APP_RULES c' !! app with
         | None, None => True
         | None, Some ac' => app_more_disables empty_app_config ac'
         | Some ac, Some ac' => app_more_disables ac ac'
         | Some _, None => False
         end.

(** The whitelist-then-blacklist category test shared by the global and
    per-app layers. *)
Definition category_disabled (enabled disabled : list string) (rid : string) : bool :=
  (nonempty enabled && bool_decide (rid ∉ get_rules_from_categories enabled))
  || bool_decide (rid ∈ get_rules_from_categories disabled).

(** The per-app layers of [is_rule_enabled_for_app] decide "disabled" in
    this way. *)
Definition app_layer_disabled (ac : AppConfig) (rid : string) : bool :=
  bool_decide (rid ∈ get_list (app_DISABLED_RULES ac))
  || category_disabled (get_list (app_ENABLED_CATEGORIES ac))
                       (get_list (app_DISABLED_CATEGORIES ac)) rid.

(** A legacy app whose per-app config disables SM001; the extended
    configuration also disables the [destructive] category globally and
    SM002 for the app. *)
Definition cfg_legacy : Config :=
  {| DISABLED_RULES := ["SM006"]; DISABLED_CATEGORIES := [];
     ENABLED_CATEGORIES := []; RULE_SEVERITY := ∅;
     EXCLUDED_APPS := EXCLUDED_APPS DEFAULTS;
     APP_RULES := {[ "legacy_app" := mkAppConfig (Some ["SM001"]) None None None ]} |}.

Definition cfg_legacy_more : Config :=
  {| DISABLED_RULES := ["SM006"; "SM008"]; DISABLED_CATEGORIES := ["destructive"];
     ENABLED_CATEGORIES := []; RULE_SEVERITY := ∅;
     EXCLUDED_APPS := EXCLUDED_APPS DEFAULTS;
     APP_RULES := {[ "legacy_app" := mkAppConfig (Some ["SM001"; "SM002"]) None
                                      (Some ["indexes"]) None ]} |}.

Definition auto_field_classes : list string :=
  ["AutoField"; "BigAutoField"; "SmallAutoField"].

(** A NOT NULL foreign key declared with [db_constraint=False]. *)
Definition fk_no_constraint : Field :=
  {| field_class := "ForeignKey"; null := false; default := None;
     db_default := None; primary_key := false; db_constraint := Some false;
     max_length := None; unique := false |}.

Definition email_not_null : Field := CharField 255 false.

(** The AlterField of [0022_drop_not_null]: [username] becomes nullable. *)
Definition op_drop_not_null : Operation :=
  AlterField "user" "username" (CharField 100 true).

Definition cfg_no_schema_changes : Config :=
  {| DISABLED_RULES := []; DISABLED_CATEGORIES := ["schema-changes"];
     ENABLED_CATEGORIES := []; RULE_SEVERITY := ∅;
     EXCLUDED_APPS := EXCLUDED_APPS DEFAULTS; APP_RULES := ∅ |}.

Definition mig_add_email : Migration :=
  mig "testapp" "0001_initial" [AddField "user" "email" email_not_null] [].

(** Two runs agree up to the order of the returned list, or both raise. *)
Definition res_perm {A} (r1 r2 : Result (list A)) : Prop :=
  match r1, r2 with
  | Ok x, Ok y => x ≡ₚ y
  | KeyError _, KeyError _ => True
  | _, _ => False
  end.

Definition nodes_AB (k : string * string) : option Migration :=
  if bool_decide (k = ("testapp", "0001_add_email")) then Some mig_A
  else if bool_decide (k = ("testapp", "0002_email_not_null")) then Some mig_B
  else None.

Definition ld_AB : Loader :=
  mkLoader [("testapp", "0001_add_email"); ("testapp", "0002_email_not_null")]
           nodes_AB.

Definition ld_BA : Loader :=
  mkLoader [("testapp", "0002_email_not_null"); ("testapp", "0001_add_email")]
           nodes_AB.

(** The squash [0002_squashed] replaces [0001_initial]; both files are on
    disk, and Django's loader has removed the replaced one from its graph. *)
Definition mig_initial : Migration := mig "testapp" "0001_initial" [op_A] [].
Definition mig_squashed : Migration :=
  mig "testapp" "0002_squashed" [op_A] [("testapp", "0001_initial")].

Definition ld_squash : Loader :=
  mkLoader [("testapp", "0001_initial"); ("testapp", "0002_squashed")]
    (fun k => if bool_decide (k = ("testapp", "0002_squashed"))
              then Some mig_squashed else None).

(** ** More of [conf.py] *)

(** [get_all_categories] *)
Definition get_all_categories : list string := map fst RULE_CATEGORIES.

(** [get_category_for_rule]: the categories, in [RULE_CATEGORIES] order,
    whose rule list contains [rid]. *)
Definition get_category_for_rule (rid : string) : list string :=
  map fst (filter (fun p => rid ∈ p.2) RULE_CATEGORIES).

(** Modelled from the spec: the values of the [Severity] enum (rules/base.py
    is not in the sources); [get_summary] counts issues under exactly these
    keys. *)
Definition severity_value (s : Severity) : string :=
  match s with ERROR => "error" | WARNING => "warning" | INFO => "info" end.

(** ** More of [analyzer.py] *)

(** The loop of [MigrationAnalyzer.analyze_new_migrations] over the keys of
    [loader.disk_migrations]; [applied] is
    [recorder.applied_migrations()]. *)
Fixpoint analyze_new_migrations_loop (cfg : Config) (a : Analyzer) (ld : Loader)
    (applied : list (string * string)) (app_label : option string)
    (keys : list (string * string)) : Result (list Issue) :=
  match keys with
  | [] => Ok []
  | (app, name) :: keys' =>
      if bool_decide ((app, name) ∈ applied) then
        analyze_new_migrations_loop cfg a ld applied app_label keys'
      else if (match app_label with
               | Some l => bool_decide (l ≠ EmptyString) && bool_decide (app ≠ l)
               | None => false
               end) then
        analyze_new_migrations_loop cfg a ld applied app_label keys'
      else
        res_bind (get_migration ld (app, name)) (fun migration =>
          res_bind (analyze_new_migrations_loop cfg a ld applied app_label keys')
            (fun rest =>
               Ok (analyze_migration cfg a migration (Some app) (Some name) ++ rest)%list))
  end.

(** [MigrationAnalyzer.analyze_new_migrations] *)
Definition analyze_new_migrations (cfg : Config) (a : Analyzer) (ld : Loader)
    (applied : list (string * string)) (app_label : option string)
    : Result (list Issue) :=
  analyze_new_migrations_loop cfg a ld applied app_label (disk_migrations ld).

(** A Python dict with string keys and integer values, in insertion
    order. *)
Definition Counter : Type := list (string * nat).

Fixpoint dict_get (k : string) (d : Counter) : option nat :=
  match d with
  | [] => None
  | (k', v) :: d' => if bool_decide (k' = k) then Some v else dict_get k d'
  end.

(** [d[k] += 1] on a present key. *)
Definition dict_add1 (k : string) (d : Counter) : Counter :=
  map (fun p => if bool_decide (p.1 = k) then (p.1, S p.2) else p) d.

(** [if k not in d: d[k] = 0] then [d[k] += 1]. *)
Definition dict_count (k : string) (d : Counter) : Counter :=
  let d := if bool_decide (k ∈ map fst d) then d else (d ++ [(k, 0)])%list in
  dict_add1 k d.

(** The dict returned by [MigrationAnalyzer.get_summary]. *)
Record Summary := mkSummary {
  total : nat;
  by_severity : Counter;
  by_rule : Counter;
  by_app : Counter
}.

(** [issue.app_label or "unknown"] *)
Definition summary_app (i : Issue) : string :=
  match app_label i with
  | Some s => if bool_decide (s = EmptyString) then "unknown" else s
  | None => "unknown"
  end.

(** One iteration of the loop of [get_summary]; the severity key is always
    present, [by_severity] having one key per [Severity] value. *)
Definition summary_step (s : Summary) (i : Issue) : Summary :=
  mkSummary (total s)
    (dict_add1 (severity_value (severity i)) (by_severity s))
    (dict_count (rule_id i) (by_rule s))
    (dict_count (summary_app i) (by_app s)).

(** [MigrationAnalyzer.get_summary] *)
Definition get_summary (issues : list Issue) : Summary :=
  fold_left summary_step issues
    (mkSummary (length issues) [("error", 0); ("warning", 0); ("info", 0)] [] []).

(** ** The exit code of the [check_migrations] command *)

(** The end of [Command.handle] in [management/commands/check_migrations.py]:
    [sys.exit(1)] is exit status 1, returning normally is status 0.  The
    end of [cli.main] computes its return value the same way, on the issues
    left after the [--baseline] filter. *)
Definition handle_exit_code (issues : list Issue) (fail_on_warning : bool) : nat :=
  let errors := filter (fun i => severity i = ERROR) issues in
  let warnings := filter (fun i => severity i = WARNING) issues in
  if nonempty errors then 1
  else if nonempty warnings && fail_on_warning then 1
  else 0.

(** ** More rules *)

(** SM004, [AlterColumnTypeRule._is_safe_change_with_old_field]; the loop
    over [METADATA_ONLY_ATTRIBUTES] only logs and is left out. *)
Definition AlterColumnTypeRule_is_safe_change_with_old_field (old_field new_field : Field)
    : bool :=
  let old_type := field_class old_field in
  let new_type := field_class new_field in
  if bool_decide (old_type ≠ new_type) then false else
  let old_null := null old_field in
  let new_null := null new_field in
  if bool_decide (old_null ≠ new_null) && new_null then true else
  let old_default := default old_field in
  let new_default := default new_field in
  let old_max := max_length old_field in
  let new_max := max_length new_field in
  let old_unique := unique old_field in
  let new_unique := unique new_field in
  if bool_decide (old_default ≠ new_default) && bool_decide (old_type = new_type)
     && (bool_decide (old_null = new_null) && bool_decide (old_max = new_max)
         && bool_decide (old_unique = new_unique))
  then true
  else if bool_decide (old_type = new_type) && bool_decide (old_null = new_null)
          && bool_decide (old_max = new_max) && bool_decide (old_unique = new_unique)
  then true
  else false.

(** SM004, [AlterColumnTypeRule._is_likely_safe_change] *)
Definition AlterColumnTypeRule_is_likely_safe_change (field : Field) : bool :=
  if bool_decide (field_class field ∈ ["BooleanField"; "NullBooleanField"]) then true
  else if bool_decide (field_class field = "TextField") then true
  else if null field then true
  else false.

Definition AlterColumnTypeRule_suggestion (op : Operation) : string :=
  "Safe pattern for changing column type (expand/contract):".

(** SM004, [AlterColumnTypeRule.check] *)
Definition AlterColumnTypeRule_check (op : Operation) (m : Migration)
    (db_vendor : string) (old_field : option Field) : option Issue :=
  match op with
  | AlterField model_name name field =>
      let field_type := field_class field in
      let safe :=
        match old_field with
        | Some old => AlterColumnTypeRule_is_safe_change_with_old_field old field
        | None => AlterColumnTypeRule_is_likely_safe_change field
        end in
      if safe then None
      else Some (BaseRule.create_issue "SM004" WARNING
                   AlterColumnTypeRule_suggestion op
                   ("Altering field '" ++ name ++ "' on '" ++ model_name
                    ++ "' to type '" ++ field_type
                    ++ "' may require table rewrite and lock"))
  | _ => None
  end.

Definition AlterColumnTypeRule : BaseRule.t :=
  BaseRule.mk "SM004" WARNING [] AlterColumnTypeRule_suggestion
    AlterColumnTypeRule_check.

Definition AddForeignKeyValidatesRule_suggestion (op : Operation) : string :=
  "Safe pattern for adding ForeignKey without table lock:".

(** SM005, [AddForeignKeyValidatesRule.check]; [getattr(field,
    "db_constraint", True)]. *)
Definition AddForeignKeyValidatesRule_check (op : Operation) (m : Migration)
    (db_vendor : string) (old_field : option Field) : option Issue :=
  match op with
  | AddField model_name name field =>
      if bool_decide (field_class field ∉ ["ForeignKey"; "OneToOneField"]) then None
      else
        let has_constraint :=
          match db_constraint field with Some b => b | None => true end in
        if negb has_constraint then None
        else Some (BaseRule.create_issue "SM005" WARNING
                     AddForeignKeyValidatesRule_suggestion op
                     ("Adding ForeignKey '" ++ name ++ "' to '" ++ model_name
                      ++ "' will validate all existing rows, potentially locking the table"))
  | _ => None
  end.

Definition AddForeignKeyValidatesRule : BaseRule.t :=
  BaseRule.mk "SM005" WARNING ["postgresql"] AddForeignKeyValidatesRule_suggestion
    AddForeignKeyValidatesRule_check.

Definition AddFieldWithDefaultRule_suggestion (op : Operation) : string :=
  "Safe pattern for adding NOT NULL field with default:".

(** SM033, [AddFieldWithDefaultRule.check] *)
Definition AddFieldWithDefaultRule_check (op : Operation) (m : Migration)
    (db_vendor : string) (old_field : option Field) : option Issue :=
  match op with
  | AddField model_name name field =>
      if bool_decide (field_class field ∈ ["AutoField"; "BigAutoField"; "SmallAutoField"])
      then None
      else if null field then None
      else match default field with
           | None => None
           | Some _ =>
               match db_default field with
               | Some _ => None
               | None =>
                   Some (BaseRule.create_issue "SM033" WARNING
                           AddFieldWithDefaultRule_suggestion op
                           ("Adding NOT NULL field '" ++ name ++ "' on '"
                            ++ model_name ++ "' with a default value will rewrite "
                            ++ "all existing rows. On large tables, add as nullable first, "
                            ++ "backfill, then set NOT NULL."))
               end
           end
  | _ => None
  end.

Definition AddFieldWithDefaultRule : BaseRule.t :=
  BaseRule.mk "SM033" WARNING [] AddFieldWithDefaultRule_suggestion
    AddFieldWithDefaultRule_check.

(** ** [utils.get_operation_line_number] *)

(** [pat in s] *)
Fixpoint str_contains (pat s : string) : bool :=
  String.prefix pat s
  || match s with EmptyString => false | String _ s' => str_contains pat s' end.

(** [s.count(c)] for a one-character [c] *)
Fixpoint count_char (c : Ascii.ascii) (s : string) : nat :=
  match s with
  | EmptyString => 0
  | String c' s' => (if bool_decide (c' = c) then 1 else 0) + count_char c s'
  end.

(** The characters [str.strip()] removes, among ASCII. *)
Definition is_py_space (c : Ascii.ascii) : bool :=
  bool_decide (Ascii.nat_of_ascii c ∈ [9; 10; 11; 12; 13; 28; 29; 30; 31; 32]).

Fixpoint lstrip (s : string) : string :=
  match s with
  | EmptyString => EmptyString
  | String c s' => if is_py_space c then lstrip s' else s
  end.

Fixpoint rstrip (s : string) : string :=
  match s with
  | EmptyString => EmptyString
  | String c s' =>
      let r := rstrip s' in
      if is_py_space c && bool_decide (r = EmptyString) then EmptyString
      else String c r
  end.

Definition strip (s : string) : string := rstrip (lstrip s).

Definition bracket_delta (line : string) : Z :=
  (Z.of_nat (count_char "["%char line) - Z.of_nat (count_char "]"%char line))%Z.

Definition is_operation_line (line : string) : bool :=
  let stripped := strip line in
  String.prefix "migrations." stripped || String.prefix "operations." stripped.

(** The loop [for i, line in enumerate(lines, start=1)] of
    [get_operation_line_number], from line [i] on. *)
Fixpoint scan_operations (lines : list string) (i : nat)
    (operations_start : option nat) (bracket_depth current_operation : Z)
    (operation_index : nat) : option nat :=
  match lines with
  | [] => None
  | line :: rest =>
      if str_contains "operations = [" line || str_contains "operations=[" line then
        scan_operations rest (S i) (Some i) (bracket_delta line) current_operation
          operation_index
      else
        match operations_start with
        | None =>
            scan_operations rest (S i) operations_start bracket_depth
              current_operation operation_index
        | Some _ =>
            let bracket_depth := (bracket_depth + bracket_delta line)%Z in
            if is_operation_line line then
              let current_operation := (current_operation + 1)%Z in
              if bool_decide (current_operation = Z.of_nat operation_index) then Some i
              else if bool_decide (bracket_depth <= 0)%Z then None
              else scan_operations rest (S i) operations_start bracket_depth
                     current_operation operation_index
            else if bool_decide (bracket_depth <= 0)%Z then None
            else scan_operations rest (S i) operations_start bracket_depth
                   current_operation operation_index
        end
  end.

(** [get_operation_line_number]: [file_lines] is [None] when the migration
    has no file path, the file does not exist, or reading it fails, and
    otherwise the result of [f.readlines()]. *)
Definition get_operation_line_number (file_lines : option (list string))
    (operation_index : nat) : option nat :=
  match file_lines with
  | None => None
  | Some lines => scan_operations lines 1 None 0%Z (-1)%Z operation_index
  end.

(** A migration file with two operations, as [f.readlines()] returns it
    (line ends left out). *)
Definition sample_migration_lines : list string := [
  "class Migration(migrations.Migration):";
  "    operations = [";
  "        migrations.AddField(";
  "            model_name='user', name='email',";
  "        ),";
  "        migrations.AlterField(";
  "            model_name='user', name='email',";
  "        ),";
  "    ]"].

(** SM004 loses an Issue without prior state: altering an [IntegerField]
    into a NOT NULL [TextField]. *)
Definition IntegerField : Field :=
  {| field_class := "IntegerField"; null := false; default := None;
     db_default := None; primary_key := false; db_constraint := None;
     max_length := None; unique := false |}.

Definition TextField_not_null : Field :=
  {| field_class := "TextField"; null := false; default := None;
     db_default := None; primary_key := false; db_constraint := None;
     max_length := None; unique := false |}.

(** * Properties *)

(** ** Baseline *)

Lemma baseline_keys_of_issues (issues : list Issue) :
  map entry_key (generate_baseline issues) = map issue_key issues.
Proof.
  unfold generate_baseline. rewrite map_map. reflexivity.
Qed.

Lemma filter_all_baselined (ks : list BaselineKey) (l : list Issue) :
  (∀ i, i ∈ l → issue_key i ∈ ks) →
  filter (fun i => issue_key i ∉ ks) l = [].
Proof.
  induction l as [|i l IH]; intros Hin; [reflexivity|].
  rewrite filter_cons. case_decide as Hnot.
  - exfalso. apply Hnot, Hin. left.
  - apply IH. intros j Hj. apply Hin. right. exact Hj.
Qed.

Lemma filter_none_baselined (l : list Issue) :
  filter (fun i => issue_key i ∉ @nil BaselineKey) l = l.
Proof.
  induction l as [|i l IH]; [reflexivity|].
  rewrite filter_cons. case_decide as Hnot.
  - rewrite IH. reflexivity.
  - exfalso. by apply not_elem_of_nil in Hnot.
Qed.

(** C3. Baseline round trip: filtering an issue list against the baseline
    generated from it leaves nothing (in particular for every non-empty
    list), and filtering against an empty baseline returns the list
    unchanged. *)
Theorem baseline_round_trip (issues : list Issue) :
  filter_baselined_issues issues (generate_baseline issues) = [] /\
  filter_baselined_issues issues [] = issues.
Proof.
  split; unfold filter_baselined_issues.
  - rewrite baseline_keys_of_issues. apply filter_all_baselined.
    intros i Hi. apply list_elem_of_fmap_2. exact Hi.
  - apply filter_none_baselined.
Qed.

(** ** Enrichment in [analyze_migration] *)

Lemma enrich_issue_frame cfg fp ln app name i :
  enrichment_frame i (enrich_issue cfg fp ln app name i) fp ln app name.
Proof.
  unfold enrichment_frame, enrich_issue; simpl.
  destruct (file_path i), (line_number i), (app_label i), (migration_name i);
    repeat split.
Qed.

Lemma run_rules_elem cfg a m fp app name idx op rs j :
  j ∈ run_rules cfg a m fp app name idx op rs →
  ∃ r i, r ∈ rs /\ BaseRule.check r op m (db_vendor a) None = Some i /\
         j = enrich_issue cfg fp (mig_line_of m idx) app name i.
Proof.
  induction rs as [|r rs IH]; simpl; intros Hj.
  - by apply not_elem_of_nil in Hj.
  - destruct (_is_rule_disabled cfg a (BaseRule.rule_id r)).
    { destruct (IH Hj) as (r' & i & ? & ? & ?). exists r', i.
      split; [by right|done]. }
    destruct (negb (BaseRule.applies_to_db r (db_vendor a))).
    { destruct (IH Hj) as (r' & i & ? & ? & ?). exists r', i.
      split; [by right|done]. }
    destruct (BaseRule.check r op m (db_vendor a) None) as [i|] eqn:Hc.
    + apply elem_of_cons in Hj as [->|Hj].
      * exists r, i. split; [left|done].
      * destruct (IH Hj) as (r' & i' & ? & ? & ?). exists r', i'.
        split; [by right|done].
    + destruct (IH Hj) as (r' & i & ? & ? & ?). exists r', i.
      split; [by right|done].
Qed.

Lemma run_operations_elem cfg a m fp app name idx ops j :
  j ∈ run_operations cfg a m fp app name idx ops →
  ∃ k op r i, ops !! k = Some op /\ r ∈ rules a /\
    BaseRule.check r op m (db_vendor a) None = Some i /\
    j = enrich_issue cfg fp (mig_line_of m (idx + k)) app name i.
Proof.
  revert idx. induction ops as [|op ops IH]; simpl; intros idx Hj.
  - by apply not_elem_of_nil in Hj.
  - apply elem_of_app in Hj as [Hj|Hj].
    + destruct (run_rules_elem _ _ _ _ _ _ _ _ _ _ Hj) as (r & i & ? & ? & ->).
      exists 0, op, r, i. rewrite Nat.add_0_r. done.
    + destruct (IH (S idx) Hj) as (k & op' & r & i & ? & ? & ? & ->).
      exists (S k), op', r, i. rewrite <- Nat.add_succ_comm. done.
Qed.

(** C10. Every issue [j] returned by [analyze_migration] comes from an
    issue [i] that a rule's [check] returned for the operation at some index
    [k]; [j] agrees with [i] on every field except [severity], and
    [file_path], [line_number], [app_label] and [migration_name] are taken
    from the analyzer's context only where the rule left them [None]. *)
Theorem analyze_migration_enrichment_frame cfg a m app_label0 migration_name0 j :
  j ∈ analyze_migration cfg a m app_label0 migration_name0 →
  ∃ k op r i, operations m !! k = Some op /\ r ∈ rules a /\
    BaseRule.check r op m (db_vendor a) None = Some i /\
    enrichment_frame i j (mig_file m) (mig_line_of m k)
      (match app_label0 with Some _ => app_label0 | None => mig_app_label m end)
      (match migration_name0 with Some _ => migration_name0 | None => mig_name m end).
Proof.
  unfold analyze_migration. intros Hj.
  destruct (run_operations_elem _ _ _ _ _ _ _ _ _ Hj) as (k & op & r & i & Hk & Hr & Hc & ->).
  exists k, op, r, i. split; [done|]. split; [done|]. split; [done|].
  simpl. destruct app_label0, migration_name0; apply enrich_issue_frame.
Qed.

Lemma analyze_migration_enrichment_frame_witness :
  let j := hd no_issue (analyze_migration DEFAULTS (pg_analyzer alter_rules)
                          mig_B None None) in
  j ∈ analyze_migration DEFAULTS (pg_analyzer alter_rules) mig_B None None /\
  ∃ k op r i, operations mig_B !! k = Some op /\ r ∈ rules (pg_analyzer alter_rules) /\
    BaseRule.check r op mig_B (db_vendor (pg_analyzer alter_rules)) None = Some i /\
    enrichment_frame i j (mig_file mig_B) (mig_line_of mig_B k)
      (mig_app_label mig_B) (mig_name mig_B).
Proof.
  intros j.
  assert (H : j ∈ analyze_migration DEFAULTS (pg_analyzer alter_rules) mig_B None None)
    by (vm_compute; apply list_elem_of_here).
  split; [exact H|].
  exact (analyze_migration_enrichment_frame DEFAULTS (pg_analyzer alter_rules)
           mig_B None None j H).
Defined.

(** ** Strings *)

Lemma string_app_cons c s t : (String c s ++ t) = String c (s ++ t).
Proof. reflexivity. Qed.

Lemma string_app_assoc (s1 s2 s3 : string) :
  (s1 ++ s2 ++ s3) = ((s1 ++ s2) ++ s3).
Proof.
  induction s1 as [|c s1 IH]; [reflexivity|].
  rewrite !string_app_cons, IH. reflexivity.
Qed.

Lemma string_app_empty_r (s : string) : (s ++ EmptyString) = s.
Proof.
  induction s as [|c s IH]; [reflexivity|].
  rewrite string_app_cons, IH. reflexivity.
Qed.

Lemma substring_of_app_l s t u : substring_of s t → substring_of s (t ++ u).
Proof.
  intros (pre & post & ->). exists pre, (post ++ u).
  rewrite <- !string_app_assoc. reflexivity.
Qed.

Lemma substring_of_app_r s t u : substring_of s u → substring_of s (t ++ u).
Proof.
  intros (pre & post & ->). exists (t ++ pre), post.
  rewrite <- !string_app_assoc. reflexivity.
Qed.

Lemma join_contains sep xs x : x ∈ xs → substring_of x (join sep xs).
Proof.
  induction xs as [|y xs IH]; intros Hx.
  - by apply not_elem_of_nil in Hx.
  - apply elem_of_cons in Hx as [->|Hx].
    + destruct xs as [|z xs]; simpl.
      * exists EmptyString, EmptyString. simpl. by rewrite string_app_empty_r.
      * exists EmptyString, (sep ++ join sep (z :: xs)). reflexivity.
    + destruct xs as [|z xs]; [by apply not_elem_of_nil in Hx|].
      change (join sep (y :: z :: xs)) with (y ++ sep ++ join sep (z :: xs)).
      apply substring_of_app_r, substring_of_app_r, IH, Hx.
Qed.

(** ** The multiple-heads check *)

(** C8. [check_graph] returns no Issue for zero or one leaf; for two or
    more leaves it returns one Issue whose message names every leaf and
    which carries no file, line or migration name; the operation-level
    [check] of the same rule never returns an Issue. *)
Theorem check_graph_multiple_heads (app : string) (leaf_migrations : list string) :
  (length leaf_migrations <= 1 →
     MissingMergeMigrationRule.check_graph app leaf_migrations = None) /\
  (2 <= length leaf_migrations →
     ∃ i, MissingMergeMigrationRule.check_graph app leaf_migrations = Some i /\
          rule_id i = "SM027" /\
          (∀ leaf, leaf ∈ leaf_migrations → substring_of leaf (message i)) /\
          file_path i = None /\ line_number i = None /\
          migration_name i = None) /\
  (∀ op m v old, MissingMergeMigrationRule.check op m v old = None).
Proof.
  unfold MissingMergeMigrationRule.check_graph. split; [|split].
  - intros Hle. rewrite bool_decide_eq_true_2 by exact Hle. reflexivity.
  - intros Hge. rewrite bool_decide_eq_false_2 by lia.
    eexists. split; [reflexivity|]. simpl.
    split; [reflexivity|]. split; [|repeat split].
    intros leaf Hleaf.
    apply substring_of_app_r, substring_of_app_r, substring_of_app_r,
      substring_of_app_r, substring_of_app_r, substring_of_app_l.
    apply join_contains. unfold py_sorted.
    rewrite merge_sort_Permutation. exact Hleaf.
  - reflexivity.
Qed.

Lemma check_graph_multiple_heads_witness :
  MissingMergeMigrationRule.check_graph "testapp" ["0002_b"] = None /\
  ∃ i, MissingMergeMigrationRule.check_graph "testapp" ["0002_b"; "0002_a"] = Some i /\
       rule_id i = "SM027" /\
       (∀ leaf, leaf ∈ ["0002_b"; "0002_a"] → substring_of leaf (message i)) /\
       file_path i = None /\ line_number i = None /\ migration_name i = None.
Proof.
  split.
  - apply (check_graph_multiple_heads "testapp" ["0002_b"]). simpl. lia.
  - apply (check_graph_multiple_heads "testapp" ["0002_b"; "0002_a"]). simpl. lia.
Defined.

(** ** Monotonicity of disabling *)

Lemma elem_of_rules_from_categories r l :
  r ∈ get_rules_from_categories l ↔ ∃ c, c ∈ l /\ r ∈ get_rules_in_category c.
Proof.
  unfold get_rules_from_categories. induction l as [|c l IH]; simpl.
  - split; [intros H; by apply not_elem_of_nil in H|].
    intros (c & Hc & _). by apply not_elem_of_nil in Hc.
  - rewrite elem_of_app, IH. split.
    + intros [H|(c' & ? & ?)]; [exists c; split; [left|done]|].
      exists c'. split; [by right|done].
    + intros (c' & Hc' & Hr). apply elem_of_cons in Hc' as [->|Hc']; [by left|].
      right. by exists c'.
Qed.

Lemma rules_from_categories_mono l l' r :
  sub_list l l' → r ∈ get_rules_from_categories l →
  r ∈ get_rules_from_categories l'.
Proof.
  intros Hsub. rewrite !elem_of_rules_from_categories.
  intros (c & Hc & Hr). exists c. split; [apply Hsub, Hc|exact Hr].
Qed.

Lemma category_disabled_mono en d d' r :
  sub_list d d' → category_disabled en d r = true →
  category_disabled en d' r = true.
Proof.
  unfold category_disabled. intros Hsub.
  rewrite !orb_true_iff, !bool_decide_eq_true.
  intros [H|H]; [by left|right]. by apply (rules_from_categories_mono d).
Qed.

Lemma is_rule_disabled_by_category_eq c r :
  is_rule_disabled_by_category c r =
  category_disabled (ENABLED_CATEGORIES c) (DISABLED_CATEGORIES c) r.
Proof.
  unfold is_rule_disabled_by_category, category_disabled.
  destruct (nonempty (ENABLED_CATEGORIES c) && _); [reflexivity|].
  destruct (DISABLED_CATEGORIES c) as [|d ds]; [reflexivity|].
  simpl. by destruct (bool_decide _).
Qed.

Lemma is_rule_enabled_eq c r :
  is_rule_enabled c r =
  negb (is_rule_disabled c r ||
        category_disabled (ENABLED_CATEGORIES c) (DISABLED_CATEGORIES c) r).
Proof.
  unfold is_rule_enabled. rewrite is_rule_disabled_by_category_eq.
  by destruct (is_rule_disabled c r), (category_disabled _ _ r).
Qed.

Lemma is_rule_enabled_mono c c' r :
  more_disables c c' → is_rule_enabled c r = false → is_rule_enabled c' r = false.
Proof.
  intros (Hdr & Hdc & Hen & _). rewrite !is_rule_enabled_eq, Hen.
  rewrite !negb_false_iff, !orb_true_iff. intros [H|H].
  - left. unfold is_rule_disabled in *. rewrite bool_decide_eq_true in *.
    by apply Hdr.
  - right. by apply (category_disabled_mono _ (DISABLED_CATEGORIES c)).
Qed.

Lemma is_rule_enabled_for_app_eq c r a :
  is_rule_enabled_for_app c r (Some a) =
  match get_app_config c a with
  | Some ac => if app_config_truthy ac
               then negb (app_layer_disabled ac r) && is_rule_enabled c r
               else is_rule_enabled c r
  | None => is_rule_enabled c r
  end.
Proof.
  unfold is_rule_enabled_for_app, app_layer_disabled, category_disabled.
  destruct (get_app_config c a) as [ac|]; [|reflexivity].
  destruct (app_config_truthy ac); [|reflexivity]. simpl.
  destruct (bool_decide (r ∈ get_list (app_DISABLED_RULES ac))); [reflexivity|]. simpl.
  destruct (nonempty (get_list (app_ENABLED_CATEGORIES ac)) && _); [reflexivity|]. simpl.
  destruct (get_list (app_DISABLED_CATEGORIES ac)) as [|d ds]; [reflexivity|].
  simpl. by destruct (bool_decide _).
Qed.

Lemma opt_sub_get_list o o' : opt_sub o o' → sub_list (get_list o) (get_list o').
Proof.
  destruct o as [l|], o' as [l'|]; simpl; try tauto.
  all: intros _ x Hx; by apply not_elem_of_nil in Hx.
Qed.

Lemma app_layer_disabled_mono ac ac' r :
  app_more_disables ac ac' → app_layer_disabled ac r = true →
  app_layer_disabled ac' r = true.
Proof.
  intros (Hdr & Hen & Hdc & _). unfold app_layer_disabled. rewrite Hen.
  rewrite !orb_true_iff, !bool_decide_eq_true. intros [H|H].
  - left. by apply (opt_sub_get_list _ _ Hdr).
  - right. apply (category_disabled_mono _ (get_list (app_DISABLED_CATEGORIES ac)));
      [by apply opt_sub_get_list|exact H].
Qed.

Lemma app_more_disables_truthy ac ac' :
  app_more_disables ac ac' → app_config_truthy ac = true →
  app_config_truthy ac' = true.
Proof.
  destruct ac as [dr en dc sv], ac' as [dr' en' dc' sv'].
  intros (Hdr & Hen & Hdc & Hsv); simpl in *; subst.
  destruct dr, dr', dc, dc', en, sv; simpl in *; intuition discriminate.
Qed.

(** C6. Monotonicity of disabling: if [is_rule_enabled_for_app] resolves
    rule [rid] as disabled for scope [app] (an app label, or [None] for the
    global configuration only) under [c], it is still disabled under every
    [c'] obtained from [c] by adding entries to disable lists, global or
    per-app. *)
Theorem disabling_is_monotone (c c' : Config) (rid : string) (app : option string) :
  more_disables c c' →
  is_rule_enabled_for_app c rid app = false →
  is_rule_enabled_for_app c' rid app = false.
Proof.
  intros Hmore Hdis.
  destruct app as [a|]; [|by apply (is_rule_enabled_mono c)].
  rewrite is_rule_enabled_for_app_eq in Hdis |- *.
  pose proof Hmore as (_ & _ & _ & Happ). specialize (Happ a).
  unfold get_app_config in *.
  destruct (APP_RULES c !! a) as [ac|], (APP_RULES c' !! a) as [ac'|];
    try contradiction.
  - destruct (app_config_truthy ac) eqn:Ht.
    + rewrite (app_more_disables_truthy ac ac' Happ Ht).
      apply andb_false_iff in Hdis as [Hd|Hd].
      * apply negb_false_iff in Hd.
        rewrite (app_layer_disabled_mono ac ac' rid Happ Hd). reflexivity.
      * rewrite (is_rule_enabled_mono c c' rid Hmore Hd).
        apply andb_false_r.
    + rewrite (is_rule_enabled_mono c c' rid Hmore Hdis).
      destruct (app_config_truthy ac'); [apply andb_false_r|reflexivity].
  - rewrite (is_rule_enabled_mono c c' rid Hmore Hdis).
    destruct (app_config_truthy ac'); [apply andb_false_r|reflexivity].
  - by apply (is_rule_enabled_mono c).
Qed.

Lemma disabling_is_monotone_witness :
  more_disables cfg_legacy cfg_legacy_more /\
  is_rule_enabled_for_app cfg_legacy "SM001" (Some "legacy_app") = false /\
  is_rule_enabled_for_app cfg_legacy_more "SM001" (Some "legacy_app") = false.
Proof.
  assert (Hmore : more_disables cfg_legacy cfg_legacy_more).
  { split; [|split; [|split]].
    - intros x Hx. apply elem_of_cons in Hx as [->|Hx]; [left|].
      by apply not_elem_of_nil in Hx.
    - intros x Hx. by apply not_elem_of_nil in Hx.
    - reflexivity.
    - intros app. simpl. destruct (decide (app = "legacy_app")) as [->|Hne].
      + rewrite !lookup_singleton_eq. split; [|split; [reflexivity|split; [exact I|reflexivity]]].
        intros x Hx. apply elem_of_cons in Hx as [->|Hx]; [left|].
        by apply not_elem_of_nil in Hx.
      + rewrite !lookup_singleton_ne by congruence. exact I. }
  assert (Hdis : is_rule_enabled_for_app cfg_legacy "SM001" (Some "legacy_app") = false)
    by (vm_compute; reflexivity).
  split; [exact Hmore|]. split; [exact Hdis|].
  exact (disabling_is_monotone _ _ _ _ Hmore Hdis).
Defined.

(** ** SM001 on AddField *)

(** C2 (counterexample). An AddField whose field is NOT NULL, has no
    default and no database default, and is neither a primary key nor an
    auto field, yet SM001 returns no Issue: a foreign key with
    [db_constraint=False]. *)
Lemma sm001_relation_without_constraint_counterexample :
  null fk_no_constraint = false /\ default fk_no_constraint = None /\
  db_default fk_no_constraint = None /\ primary_key fk_no_constraint = false /\
  (field_class fk_no_constraint ∉ auto_field_classes) /\
  NotNullWithoutDefaultRule_check (AddField "order" "customer" fk_no_constraint)
    mig_A "postgresql" None = None.
Proof.
  repeat split; try reflexivity. vm_compute. intros H.
  repeat (apply elem_of_cons in H as [H|H]; [discriminate|]).
  by apply not_elem_of_nil in H.
Qed.

(** C2 (amended). For an AddField whose field is NOT NULL, has no default,
    no database default, is not a primary key or auto field, and is not a
    relation declared with [db_constraint=False], SM001's [check] returns
    exactly one Issue, with rule id SM001 and severity ERROR; for a relation
    with [db_constraint=False] or a nullable field it returns none. *)
Theorem sm001_not_null_without_default mn n f m v old :
  (null f = false → default f = None → db_default f = None →
   primary_key f = false → field_class f ∉ auto_field_classes →
   db_constraint f ≠ Some false →
   ∃ i, NotNullWithoutDefaultRule_check (AddField mn n f) m v old = Some i /\
        rule_id i = "SM001" /\ severity i = ERROR) /\
  (db_constraint f = Some false →
   NotNullWithoutDefaultRule_check (AddField mn n f) m v old = None) /\
  (null f = true →
   NotNullWithoutDefaultRule_check (AddField mn n f) m v old = None).
Proof.
  unfold NotNullWithoutDefaultRule_check, has_default_method.
  split; [|split].
  - intros Hn Hd Hdb Hpk Hauto Hrel.
    rewrite Hn, Hd, Hdb, Hpk, bool_decide_eq_false_2 by exact Hauto. simpl.
    destruct (db_constraint f) as [[|]|]; [| congruence |]; simpl;
      eexists; (split; [reflexivity|]); split; reflexivity.
  - intros Hrel. rewrite Hrel. simpl.
    destruct (negb (null f) && _ && _); reflexivity.
  - intros Hn. rewrite Hn. reflexivity.
Qed.

Lemma sm001_not_null_without_default_witness :
  ∃ i, NotNullWithoutDefaultRule_check (AddField "user" "email" email_not_null)
         mig_A "postgresql" None = Some i /\ rule_id i = "SM001" /\ severity i = ERROR.
Proof.
  apply (sm001_not_null_without_default "user" "email" email_not_null mig_A
           "postgresql" None); try reflexivity.
  - vm_compute. intros H.
    repeat (apply elem_of_cons in H as [H|H]; [discriminate|]).
    by apply not_elem_of_nil in H.
  - discriminate.
Defined.

(** ** Rules without prior state *)

(** C9 (counterexample). SM029 consults prior state and, when it is absent,
    returns no Issue for an operation on which it reports one once prior
    state (a NOT NULL column) is supplied: it skips solely because prior
    state is missing. *)
Lemma drop_not_null_skips_without_prior_state :
  DropNotNullRule_check op_drop_not_null mig_B "postgresql" None = None /\
  is_Some (DropNotNullRule_check op_drop_not_null mig_B "postgresql"
             (Some (CharField 100 false))).
Proof. split; [reflexivity|]. eexists. reflexivity. Qed.

(** C9 (amended).  Of the five rules that consult prior state, SM013,
    SM020 and SM021 never lose an Issue for lack of it: whenever they report
    one with some prior state supplied, they also report one without it.
    SM029 returns no Issue whenever prior state is absent.  SM004 without
    prior state accepts every [AlterField] to a [BooleanField],
    [NullBooleanField] or [TextField], or to a nullable field, while with
    prior state it reports every [AlterField] that changes the field
    class. *)
Theorem prior_state_fallbacks :
  (∀ op m v, DropNotNullRule_check op m v None = None) /\
  (∀ op m v old, is_Some (AlterVarcharLengthRule_check op m v (Some old)) →
                 is_Some (AlterVarcharLengthRule_check op m v None)) /\
  (∀ op m v old, is_Some (AlterFieldNullFalseRule_check op m v (Some old)) →
                 is_Some (AlterFieldNullFalseRule_check op m v None)) /\
  (∀ op m v old, is_Some (AlterFieldUniqueRule_check op m v (Some old)) →
                 is_Some (AlterFieldUniqueRule_check op m v None)) /\
  (∀ mn n f m v,
     field_class f ∈ ["BooleanField"; "NullBooleanField"; "TextField"] \/ null f = true →
     AlterColumnTypeRule_check (AlterField mn n f) m v None = None) /\
  (∀ mn n f m v old, field_class old ≠ field_class f →
     is_Some (AlterColumnTypeRule_check (AlterField mn n f) m v (Some old))).
Proof.
  split; [|split; [|split; [|split; [|split]]]].
  - intros [] m v; simpl; try reflexivity. by destruct (negb _).
  - intros [] m v old; simpl; try done.
    case_bool_decide; [done|].
    destruct (max_length field); [|done]. intros _. eexists. reflexivity.
  - intros [] m v old; simpl; try done.
    destruct (negb (negb (null field))); [done|]. intros _. eexists. reflexivity.
  - intros [] m v old; simpl; try done.
    destruct (negb (unique field)); [done|]. intros _. eexists. reflexivity.
  - intros mn n f m v Hsafe. simpl. unfold AlterColumnTypeRule_is_likely_safe_change.
    destruct Hsafe as [Hc|Hn].
    + apply elem_of_cons in Hc as [Hc|Hc].
      { rewrite bool_decide_eq_true_2; [done|]. rewrite Hc. left. }
      apply elem_of_cons in Hc as [Hc|Hc].
      { rewrite bool_decide_eq_true_2; [done|]. rewrite Hc. right. left. }
      apply list_elem_of_singleton in Hc.
      case_bool_decide; [done|]. by rewrite bool_decide_eq_true_2.
    + repeat case_bool_decide; try done. by rewrite Hn.
  - intros mn n f m v old Hc. simpl.
    unfold AlterColumnTypeRule_is_safe_change_with_old_field.
    rewrite bool_decide_eq_true_2 by exact Hc. eexists. reflexivity.
Qed.

Lemma prior_state_fallbacks_witness :
  DropNotNullRule_check op_drop_not_null mig_B "postgresql" None = None /\
  is_Some (AlterFieldNullFalseRule_check op_B mig_B "postgresql" None) /\
  AlterColumnTypeRule_check (AlterField "user" "age" TextField_not_null) mig_B
    "postgresql" None = None /\
  is_Some (AlterColumnTypeRule_check (AlterField "user" "age" TextField_not_null) mig_B
             "postgresql" (Some IntegerField)).
Proof.
  destruct prior_state_fallbacks as (Hdrop & _ & Hnull & _ & Hcold & Hold).
  split; [apply Hdrop|]. split.
  - apply (Hnull op_B mig_B "postgresql" (CharField 255 true)).
    eexists. reflexivity.
  - split.
    + apply Hcold. left. right. right. left.
    + apply Hold. discriminate.
Defined.

(** ** Prior state in [analyze_migration] *)

(** C1 (failing input). In the scope where A adds the nullable CharField
    [user.email] (max_length 255) and B, depending on A, makes it NOT NULL,
    the column's prior state at B is A's nullable field.  [analyze_migration]
    calls every rule's [check] on B without [old_field]: SM013 then reports
    its cold-start warning, which it does not report when given that prior
    state, and SM020 reports on the cold-start path. *)
Theorem analyzer_evaluates_B_without_prior_state :
  map rule_id (analyze_migration DEFAULTS (pg_analyzer alter_rules) mig_B
                 (Some "testapp") (Some "0002_email_not_null"))
  = ["SM013"; "SM020"] /\
  AlterVarcharLengthRule_check op_B mig_B "postgresql" (Some (CharField 255 true))
  = None /\
  is_Some (AlterFieldNullFalseRule_check op_B mig_B "postgresql"
             (Some (CharField 255 true))).
Proof.
  split; [vm_compute; reflexivity|]. split; [reflexivity|]. eexists. reflexivity.
Qed.

(** ** Category configuration in [analyze_migration] *)

(** C4 (failing input). With [DISABLED_CATEGORIES = ["schema-changes"]],
    the configuration resolves SM001 as disabled, globally and for the app,
    yet [analyze_migration] (whose [_is_rule_disabled] reads only
    [DISABLED_RULES]) still reports an SM001 Issue. *)
Theorem analyzer_ignores_disabled_categories :
  is_rule_disabled_by_category cfg_no_schema_changes "SM001" = true /\
  is_rule_enabled cfg_no_schema_changes "SM001" = false /\
  is_rule_enabled_for_app cfg_no_schema_changes "SM001" (Some "testapp") = false /\
  _is_rule_disabled cfg_no_schema_changes
    (pg_analyzer [NotNullWithoutDefaultRule]) "SM001" = false /\
  map rule_id (analyze_migration cfg_no_schema_changes
                 (pg_analyzer [NotNullWithoutDefaultRule]) mig_add_email None None)
  = ["SM001"].
Proof. vm_compute. repeat split. Qed.

(** ** Ordering of strings and sorting *)

Lemma str_le_spec a b : str_le a b ↔ a = b \/ String_as_OT.lt a b.
Proof.
  unfold str_le. destruct (String_as_OT.compare_spec a b) as [H|H|H].
  - split; [by left|discriminate].
  - split; [by right|discriminate].
  - split; [intros Hne; by contradiction Hne|].
    intros [->|Hlt]; exfalso.
    + by apply (StrictOrder_Irreflexive b).
    + apply (StrictOrder_Irreflexive a). by transitivity b.
Qed.

#[global] Instance str_le_trans : Transitive str_le.
Proof.
  intros a b c. rewrite !str_le_spec.
  intros [->|Hab] [->|Hbc]; [by left|by right|by right|].
  right. by transitivity b.
Qed.

#[global] Instance str_le_total : Total str_le.
Proof.
  intros a b. rewrite !str_le_spec.
  destruct (String_as_OT.compare_spec a b) as [H|H|H]; [by left; left|by left; right|].
  by right; right.
Qed.

#[global] Instance str_le_antisymm : AntiSymm (=) str_le.
Proof.
  intros a b. rewrite !str_le_spec.
  intros [->|Hab] [Hba|Hba]; [done|done|by symmetry|].
  exfalso. apply (StrictOrder_Irreflexive a). by transitivity b.
Qed.

#[global] Instance name_le_trans {A} : Transitive (@name_le A).
Proof. intros x y z. unfold name_le. apply str_le_trans. Qed.

#[global] Instance name_le_total {A} : Total (@name_le A).
Proof. intros x y. unfold name_le. apply str_le_total. Qed.

Lemma py_sorted_Permutation l1 l2 : l1 ≡ₚ l2 → py_sorted l1 = py_sorted l2.
Proof.
  intros Hp. unfold py_sorted.
  apply (Sorted_unique str_le).
  - apply Sorted_merge_sort, _.
  - apply Sorted_merge_sort, _.
  - by rewrite !merge_sort_Permutation.
Qed.

(** Sorting pairs by name sorts their names. *)
Lemma sort_by_name_names {A} (l : list (string * A)) :
  map fst (sort_by_name l) = py_sorted (map fst l).
Proof.
  unfold py_sorted.
  apply (Sorted_unique str_le).
  - apply (Sorted_fmap fst name_le). { intros x y H. exact H. }
    apply Sorted_merge_sort, _.
  - apply Sorted_merge_sort, _.
  - rewrite merge_sort_Permutation. unfold sort_by_name.
    by rewrite merge_sort_Permutation.
Qed.

(** Sorting by name is independent of the input order when each name
    determines its pair. *)
Lemma sort_by_name_Permutation {A} (l1 l2 : list (string * A)) :
  (∀ x1 x2, x1 ∈ l1 → x2 ∈ l2 → x1.1 = x2.1 → x1 = x2) →
  l1 ≡ₚ l2 → sort_by_name l1 = sort_by_name l2.
Proof.
  intros Hdet Hp. unfold sort_by_name.
  apply (Sorted_unique_strong name_le).
  - intros x1 x2 H1 H2 Hle1 Hle2. apply Hdet.
    + by rewrite merge_sort_Permutation in H1.
    + by rewrite merge_sort_Permutation in H2.
    + by apply (anti_symm str_le).
  - apply Sorted_merge_sort, _.
  - apply Sorted_merge_sort, _.
  - by rewrite !merge_sort_Permutation.
Qed.

(** ** Runs that may raise [KeyError] *)

Lemma res_perm_trans {A} (r1 r2 r3 : Result (list A)) :
  res_perm r1 r2 → res_perm r2 r3 → res_perm r1 r3.
Proof.
  destruct r1, r2, r3; simpl; try tauto. intros H1 H2. by rewrite H1.
Qed.

Lemma res_mapM_Permutation {A B} (f : A → Result B) (l1 l2 : list A) :
  l1 ≡ₚ l2 → res_perm (res_mapM f l1) (res_mapM f l2).
Proof.
  induction 1 as [|x l1 l2 Hp IH|x y l|l1 l2 l3 _ IH1 _ IH2]; simpl.
  - reflexivity.
  - destruct (f x) as [b|k]; simpl; [|exact I].
    destruct (res_mapM f l1), (res_mapM f l2); simpl in *; try tauto.
    by rewrite IH.
  - destruct (f y) as [b|k], (f x) as [c|k']; simpl; try exact I.
    destruct (res_mapM f l); simpl; [apply perm_swap|exact I].
  - by apply (res_perm_trans _ (res_mapM f l2)).
Qed.

Lemma res_mapM_elem {A B} (f : A → Result B) (l : list A) (r : list B) y :
  res_mapM f l = Ok r → y ∈ r → ∃ x, x ∈ l /\ f x = Ok y.
Proof.
  revert r. induction l as [|x l IH]; simpl; intros r Hr Hy.
  - injection Hr as <-. by apply not_elem_of_nil in Hy.
  - destruct (f x) as [b|k] eqn:Hf; simpl in Hr; [|discriminate].
    destruct (res_mapM f l) as [r'|k] eqn:Hl; simpl in Hr; [|discriminate].
    injection Hr as <-. apply elem_of_cons in Hy as [->|Hy].
    + exists x. split; [left|exact Hf].
    + destruct (IH r' eq_refl Hy) as (x' & ? & ?). exists x'. split; [by right|done].
Qed.

Lemma app_migrations_elem ld app ms p :
  app_migrations ld app = Ok ms → p ∈ ms →
  graph_nodes ld (app, p.1) = Some p.2.
Proof.
  intros Hms Hp. destruct (res_mapM_elem _ _ _ _ Hms Hp) as ([app' name] & Hk & Hg).
  apply list_elem_of_filter in Hk as [Happ _]. simpl in Happ. subst app'.
  unfold get_migration in Hg. simpl in Hg.
  destruct (graph_nodes ld (app, name)) as [m|] eqn:Hn; simpl in Hg; [|discriminate].
  injection Hg as <-. exact Hn.
Qed.

Lemma app_migrations_names ld app ms :
  app_migrations ld app = Ok ms →
  map fst ms = map snd (filter (fun k => k.1 = app) (disk_migrations ld)).
Proof.
  unfold app_migrations.
  generalize (filter (fun k => k.1 = app) (disk_migrations ld)) as l.
  intros l. revert ms. induction l as [|k l IH]; simpl; intros ms Hms.
  - by injection Hms as <-.
  - unfold get_migration in Hms.
    destruct (graph_nodes ld k) as [m|]; simpl in Hms; [|discriminate].
    destruct (res_mapM _ l) as [r'|e] eqn:Hl; simpl in Hms; [|discriminate].
    injection Hms as <-. simpl. f_equal. by apply IH.
Qed.

Lemma app_migrations_Permutation ld1 ld2 app :
  disk_migrations ld1 ≡ₚ disk_migrations ld2 → graph_nodes ld1 = graph_nodes ld2 →
  res_perm (app_migrations ld1 app) (app_migrations ld2 app).
Proof.
  intros Hp Hg. unfold app_migrations, get_migration. rewrite Hg.
  apply res_mapM_Permutation. by rewrite Hp.
Qed.

Lemma analyze_app_ok_part cfg a ld1 ld2 app :
  disk_migrations ld1 ≡ₚ disk_migrations ld2 → graph_nodes ld1 = graph_nodes ld2 →
  ok_part (analyze_app cfg a ld1 app) = ok_part (analyze_app cfg a ld2 app).
Proof.
  intros Hp Hg. pose proof (app_migrations_Permutation ld1 ld2 app Hp Hg) as Hr.
  unfold analyze_app.
  destruct (app_migrations ld1 app) as [ms1|k1] eqn:H1,
           (app_migrations ld2 app) as [ms2|k2] eqn:H2; simpl in *; try done.
  f_equal. f_equal. f_equal.
  apply sort_by_name_Permutation; [|exact Hr].
  intros x1 x2 Hx1 Hx2 Hn.
  pose proof (app_migrations_elem _ _ _ _ H1 Hx1) as G1.
  pose proof (app_migrations_elem _ _ _ _ H2 Hx2) as G2.
  destruct x1 as [n1 m1], x2 as [n2 m2]; simpl in *. subst n2.
  rewrite Hg in G1. rewrite G1 in G2. by injection G2 as ->.
Qed.

Lemma analyze_apps_ok_part cfg a ld1 ld2 ex apps :
  (∀ app, ok_part (analyze_app cfg a ld1 app) = ok_part (analyze_app cfg a ld2 app)) →
  ok_part (analyze_apps cfg a ld1 ex apps) = ok_part (analyze_apps cfg a ld2 ex apps).
Proof.
  intros Happ. induction apps as [|app apps IH]; simpl; [done|].
  case_bool_decide; [exact IH|].
  specialize (Happ app).
  destruct (analyze_app cfg a ld1 app), (analyze_app cfg a ld2 app);
    simpl in *; try done.
  injection Happ as ->.
  destruct (analyze_apps cfg a ld1 ex apps), (analyze_apps cfg a ld2 ex apps);
    simpl in *; congruence.
Qed.

Lemma apps_with_migrations_sorted (d1 d2 : list (string * string)) :
  d1 ≡ₚ d2 → py_sorted (remove_dups (map fst d1)) = py_sorted (remove_dups (map fst d2)).
Proof.
  intros Hp. apply py_sorted_Permutation.
  apply NoDup_Permutation; [apply NoDup_remove_dups..|].
  intros x. rewrite !elem_of_remove_dups. by rewrite Hp.
Qed.

(** ** Determinism of [analyze_all] *)

(** C7: the issues of a normal run of [analyze_all] do not depend on the
    order in which the loader's [disk_migrations] dict lists its keys: apps
    are visited in sorted order and each app's changesets in name order.  In
    particular two runs on the same changesets and configuration return the
    same issue list in the same order. *)
Theorem analyze_all_deterministic cfg a ld1 ld2 exclude_apps :
  disk_migrations ld1 ≡ₚ disk_migrations ld2 →
  graph_nodes ld1 = graph_nodes ld2 →
  ok_part (analyze_all cfg a ld1 exclude_apps) =
  ok_part (analyze_all cfg a ld2 exclude_apps).
Proof.
  intros Hp Hg. unfold analyze_all.
  rewrite (apps_with_migrations_sorted _ _ Hp).
  apply analyze_apps_ok_part. intros app.
  by apply analyze_app_ok_part.
Qed.

Lemma analyze_all_deterministic_witness :
  ok_part (analyze_all DEFAULTS (pg_analyzer alter_rules) ld_BA None) =
  ok_part (analyze_all DEFAULTS (pg_analyzer alter_rules) ld_AB None) /\
  ok_part (analyze_all DEFAULTS (pg_analyzer alter_rules) ld_AB None) <> None.
Proof.
  split.
  - apply analyze_all_deterministic; [apply perm_swap|reflexivity].
  - vm_compute. discriminate.
Defined.

(** ** Squashed changesets in [analyze_app] *)

(** C5: with the squash [0002_squashed] replacing [0001_initial] and both on
    disk, [analyze_app] still visits [0001_initial]: it asks the loader for
    it, which raises [KeyError], so the app is not analysed with the squash
    in the replaced changeset's place. *)
Theorem analyze_app_visits_replaced_changeset :
  replaces mig_squashed = [("testapp", "0001_initial")] /\
  ("testapp", "0001_initial") ∈ disk_migrations ld_squash /\
  ("testapp", "0002_squashed") ∈ disk_migrations ld_squash /\
  analyze_app DEFAULTS (pg_analyzer alter_rules) ld_squash "testapp" =
    KeyError ("testapp", "0001_initial").
Proof.
  split; [reflexivity|]. split; [by left|]. split; [by right; left|].
  vm_compute. reflexivity.
Qed.

(** What [analyze_app] does instead of a topological order: a normal run
    analyses every on-disk changeset of the app, replaced ones included,
    in ascending name order, each as the loader's graph holds it. *)
Lemma analyze_app_on_disk_order cfg a ld app is :
  analyze_app cfg a ld app = Ok is →
  ∃ ms, is = concat (map (fun p => analyze_migration cfg a p.2 (Some app) (Some p.1)) ms) /\
        map fst ms = py_sorted (map snd (filter (fun k => k.1 = app) (disk_migrations ld))) /\
        Forall (fun p => graph_nodes ld (app, p.1) = Some p.2) ms.
Proof.
  unfold analyze_app. destruct (app_migrations ld app) as [ms|k] eqn:Hms;
    simpl; [|discriminate].
  intros H. injection H as <-. exists (sort_by_name ms). split; [reflexivity|].
  split.
  - rewrite sort_by_name_names. f_equal. by apply app_migrations_names.
  - apply Forall_forall. intros p Hp. apply (app_migrations_elem ld app ms).
    + exact Hms.
    + unfold sort_by_name in Hp. by rewrite merge_sort_Permutation in Hp.
Qed.

(** ** Counters of [get_summary] *)

Lemma dict_get_add1 k k' d :
  dict_get k (dict_add1 k' d) =
  if bool_decide (k = k') then
    match dict_get k d with Some v => Some (S v) | None => None end
  else dict_get k d.
Proof.
  induction d as [|[k0 v] d IH]; simpl.
  - by case_bool_decide.
  - unfold dict_add1 in *. simpl.
    destruct (decide (k0 = k')) as [->|Hne].
    + rewrite (bool_decide_eq_true_2 (k' = k')) by done. simpl.
      destruct (decide (k' = k)) as [->|Hne'].
      * rewrite !bool_decide_eq_true_2 by done. done.
      * rewrite !bool_decide_eq_false_2 by congruence. rewrite IH.
        by rewrite bool_decide_eq_false_2 by congruence.
    + rewrite (bool_decide_eq_false_2 (k0 = k')) by done. simpl.
      rewrite IH. repeat case_bool_decide; subst; congruence.
Qed.

Lemma dict_get_app k (d e : Counter) :
  dict_get k (d ++ e)%list = match dict_get k d with Some v => Some v | None => dict_get k e end.
Proof.
  induction d as [|[k0 v] d IH]; simpl; [done|]. by case_bool_decide.
Qed.

Lemma dict_get_None k d : dict_get k d = None ↔ k ∉ map fst d.
Proof.
  induction d as [|[k0 v] d IH]; simpl.
  - split; [intros _; apply not_elem_of_nil|done].
  - rewrite elem_of_cons. case_bool_decide as Hk.
    + split; [discriminate|]. intros H. exfalso. apply H. by left.
    + rewrite IH. split; intros H; [intros [?|?]; [congruence|tauto]|tauto].
Qed.

Lemma dict_get_count k k' d :
  dict_get k (dict_count k' d) =
  if bool_decide (k = k') then
    Some (match dict_get k d with Some v => S v | None => 1 end)
  else dict_get k d.
Proof.
  unfold dict_count. case_bool_decide as Hin.
  - rewrite dict_get_add1. case_bool_decide; [subst k'|done].
    destruct (dict_get k d) eqn:Hg; [done|].
    apply dict_get_None in Hg. contradiction.
  - rewrite dict_get_add1, dict_get_app. case_bool_decide; [subst k'|].
    + assert (dict_get k d = None) as -> by by apply dict_get_None.
      simpl. by rewrite bool_decide_eq_true_2.
    + destruct (dict_get k d); [done|]. simpl.
      by rewrite bool_decide_eq_false_2 by congruence.
Qed.

Lemma dict_add1_keys k d : map fst (dict_add1 k d) = map fst d.
Proof.
  unfold dict_add1. rewrite map_map. apply map_ext. intros [k0 v]. simpl.
  by case_bool_decide.
Qed.

Lemma dict_add1_absent k d : k ∉ map fst d → dict_add1 k d = d.
Proof.
  induction d as [|[k0 v] d IH]; simpl; intros Hk; [done|].
  unfold dict_add1 in *. simpl. rewrite elem_of_cons in Hk.
  rewrite bool_decide_eq_false_2 by (intros ->; tauto).
  f_equal. apply IH. tauto.
Qed.

Lemma dict_add1_sum k d :
  NoDup (map fst d) → k ∈ map fst d →
  sum_list (map snd (dict_add1 k d)) = S (sum_list (map snd d)).
Proof.
  induction d as [|[k0 v] d IH]; simpl; intros Hnd Hk.
  - by apply not_elem_of_nil in Hk.
  - apply NoDup_cons in Hnd as [Hk0 Hnd].
    pose proof (dict_add1_absent k0 d Hk0) as Ha. unfold dict_add1 in *. simpl.
    case_bool_decide as Heq.
    + subst k0. simpl. rewrite Ha. lia.
    + simpl. apply elem_of_cons in Hk as [?|Hk]; [congruence|].
      rewrite IH by done. lia.
Qed.

Lemma dict_count_keys_sum k d :
  NoDup (map fst d) →
  NoDup (map fst (dict_count k d)) /\
  sum_list (map snd (dict_count k d)) = S (sum_list (map snd d)) /\
  (∀ k', k' ∈ map fst (dict_count k d) ↔ k' = k \/ k' ∈ map fst d).
Proof.
  intros Hnd. unfold dict_count. case_bool_decide as Hin.
  - rewrite dict_add1_keys. split; [done|]. split; [by apply dict_add1_sum|].
    intros k'. split; [tauto|]. intros [->|?]; done.
  - assert (NoDup (map fst (d ++ [(k, 0)]))) as Hnd'.
    { rewrite map_app. simpl. apply NoDup_app. split; [done|]. split.
      - intros x Hx Hx'. apply list_elem_of_singleton in Hx'. subst. contradiction.
      - apply NoDup_singleton. }
    rewrite dict_add1_keys. split; [done|]. split.
    + rewrite dict_add1_sum; [| exact Hnd' |].
      2: { rewrite map_app. apply elem_of_app. right. simpl. left. }
      rewrite map_app, sum_list_with_app. simpl. lia.
    + intros k'. rewrite map_app, elem_of_app. simpl.
      rewrite list_elem_of_singleton. tauto.
Qed.

Lemma fold_count_get {A} (f : A → string) (l : list A) d k :
  dict_get k (fold_left (fun d i => dict_count (f i) d) l d) =
  match dict_get k d with
  | Some v => Some (v + length (filter (fun i => f i = k) l))
  | None => match length (filter (fun i => f i = k) l) with 0 => None | n => Some n end
  end.
Proof.
  revert d. induction l as [|x l IH]; intros d; simpl.
  - destruct (dict_get k d); [f_equal; lia|done].
  - rewrite IH, dict_get_count, filter_cons.
    destruct (decide (f x = k)) as [Hx|Hx].
    + rewrite bool_decide_eq_true_2 by done. simpl.
      destruct (dict_get k d); f_equal; lia.
    + rewrite bool_decide_eq_false_2 by congruence. done.
Qed.

Lemma fold_count_keys_sum {A} (f : A → string) (l : list A) d :
  NoDup (map fst d) →
  NoDup (map fst (fold_left (fun d i => dict_count (f i) d) l d)) /\
  sum_list (map snd (fold_left (fun d i => dict_count (f i) d) l d)) =
    sum_list (map snd d) + length l.
Proof.
  revert d. induction l as [|x l IH]; intros d Hnd; simpl.
  - split; [done|lia].
  - destruct (dict_count_keys_sum (f x) d Hnd) as (Hnd' & Hs & _).
    destruct (IH _ Hnd') as [? Hs']. split; [done|]. rewrite Hs', Hs. lia.
Qed.

Lemma summary_fold_fields l s :
  total (fold_left summary_step l s) = total s /\
  by_severity (fold_left summary_step l s) =
    fold_left (fun d i => dict_add1 (severity_value (severity i)) d) l (by_severity s) /\
  by_rule (fold_left summary_step l s) =
    fold_left (fun d i => dict_count (rule_id i) d) l (by_rule s) /\
  by_app (fold_left summary_step l s) =
    fold_left (fun d i => dict_count (summary_app i) d) l (by_app s).
Proof.
  revert s. induction l as [|i l IH]; intros s; simpl; [done|].
  exact (IH (summary_step s i)).
Qed.

Lemma fold_severity_counts l e w n :
  fold_left (fun d i => dict_add1 (severity_value (severity i)) d) l
    [("error", e); ("warning", w); ("info", n)] =
  [("error", e + length (filter (fun i => severity i = ERROR) l));
   ("warning", w + length (filter (fun i => severity i = WARNING) l));
   ("info", n + length (filter (fun i => severity i = INFO) l))].
Proof.
  revert e w n. induction l as [|i l IH]; intros e w n; simpl.
  - repeat f_equal; lia.
  - rewrite !filter_cons. destruct (severity i) eqn:Hs; simpl.
    + change (dict_add1 "error" [("error", e); ("warning", w); ("info", n)])
        with [("error", S e); ("warning", w); ("info", n)].
      rewrite IH. simpl. repeat f_equal; lia.
    + change (dict_add1 "warning" [("error", e); ("warning", w); ("info", n)])
        with [("error", e); ("warning", S w); ("info", n)].
      rewrite IH. simpl. repeat f_equal; lia.
    + change (dict_add1 "info" [("error", e); ("warning", w); ("info", n)])
        with [("error", e); ("warning", w); ("info", S n)].
      rewrite IH. simpl. repeat f_equal; lia.
Qed.

Lemma severity_partition (l : list Issue) :
  length (filter (fun i => severity i = ERROR) l)
  + length (filter (fun i => severity i = WARNING) l)
  + length (filter (fun i => severity i = INFO) l) = length l.
Proof.
  induction l as [|i l IH]; simpl; [done|].
  rewrite !filter_cons. destruct (severity i);
    repeat (first [rewrite decide_True by done | rewrite decide_False by congruence]);
    simpl; lia.
Qed.

Lemma summary_app_unknown i :
  summary_app i = "unknown" ↔
  app_label i = None \/ app_label i = Some EmptyString \/ app_label i = Some "unknown".
Proof.
  unfold summary_app. destruct (app_label i) as [s|].
  - case_bool_decide as Hs.
    + subst. split; [intros _; by right; left|done].
    + split; [intros ->; by right; right|].
      intros [?|[?|?]]; congruence.
  - split; [by left|done].
Qed.

(** ** The exit code and the baseline *)

Lemma nonempty_filter {A} (P : A → Prop) `{∀ x, Decision (P x)} (l : list A) :
  nonempty (filter P l) = true ↔ ∃ x, x ∈ l /\ P x.
Proof.
  induction l as [|x l IH]; simpl.
  - split; [discriminate|]. intros (y & Hy & _). by apply not_elem_of_nil in Hy.
  - rewrite filter_cons. destruct (decide (P x)) as [Hx|Hx].
    + split; [intros _; exists x; split; [left|done]|done].
    + rewrite IH. split.
      * intros (y & ? & ?). exists y. split; [by right|done].
      * intros (y & Hy & ?). apply elem_of_cons in Hy as [->|Hy]; [done|].
        by exists y.
Qed.

Lemma handle_exit_code_cases issues fow :
  handle_exit_code issues fow =
  if nonempty (filter (fun i => severity i = ERROR) issues)
     || (nonempty (filter (fun i => severity i = WARNING) issues) && fow)
  then 1 else 0.
Proof.
  unfold handle_exit_code.
  by destruct (nonempty (filter (fun i => severity i = ERROR) issues)),
              (nonempty (filter (fun i => severity i = WARNING) issues)), fow.
Qed.

Lemma filter_keep_all {A} (P : A → Prop) `{∀ x, Decision (P x)} (l : list A) :
  (∀ x, x ∈ l → P x) → filter P l = l.
Proof.
  induction l as [|x l IH]; intros Hall; [done|].
  rewrite filter_cons_True by (apply Hall; left). f_equal.
  apply IH. intros y Hy. apply Hall. by right.
Qed.

(** ** Properties of [get_summary] *)

(** [get_summary]: [total] is the number of issues, and [by_severity] keeps
    its three keys in order, counting the issues of each severity; the three
    counts add up to [total]. *)
Theorem get_summary_severity_counts (issues : list Issue) :
  total (get_summary issues) = length issues /\
  by_severity (get_summary issues) =
    [("error", length (filter (fun i => severity i = ERROR) issues));
     ("warning", length (filter (fun i => severity i = WARNING) issues));
     ("info", length (filter (fun i => severity i = INFO) issues))] /\
  length (filter (fun i => severity i = ERROR) issues)
  + length (filter (fun i => severity i = WARNING) issues)
  + length (filter (fun i => severity i = INFO) issues) = total (get_summary issues).
Proof.
  unfold get_summary.
  destruct (summary_fold_fields issues
              (mkSummary (length issues) [("error", 0); ("warning", 0); ("info", 0)] [] []))
    as (Ht & Hs & _ & _).
  rewrite Ht, Hs. simpl. split; [done|]. split.
  - apply fold_severity_counts.
  - apply severity_partition.
Qed.

(** [get_summary]: [by_rule] has one key per rule id that occurs in the
    issues, with no duplicate keys, mapped to the number of issues of that
    rule; the counts add up to the number of issues. *)
Theorem get_summary_by_rule (issues : list Issue) :
  (∀ r, dict_get r (by_rule (get_summary issues)) =
        match length (filter (fun i => rule_id i = r) issues) with
        | 0 => None
        | n => Some n
        end) /\
  NoDup (map fst (by_rule (get_summary issues))) /\
  sum_list (map snd (by_rule (get_summary issues))) = length issues.
Proof.
  unfold get_summary.
  destruct (summary_fold_fields issues
              (mkSummary (length issues) [("error", 0); ("warning", 0); ("info", 0)] [] []))
    as (_ & _ & Hr & _).
  rewrite Hr. simpl.
  destruct (fold_count_keys_sum rule_id issues [] (NoDup_nil_2)) as [Hnd Hs].
  split; [|split; [exact Hnd|rewrite Hs; done]].
  intros r. by rewrite fold_count_get.
Qed.

(** [get_summary]: [by_app] counts the issues per app label without
    duplicate keys; an issue whose [app_label] is [None] or the empty string
    is counted under ["unknown"], together with the issues of an app
    actually labelled ["unknown"]. *)
Theorem get_summary_by_app (issues : list Issue) :
  (∀ k, dict_get k (by_app (get_summary issues)) =
        match length (filter (fun i => summary_app i = k) issues) with
        | 0 => None
        | n => Some n
        end) /\
  (∀ i, summary_app i = "unknown" ↔
        app_label i = None \/ app_label i = Some EmptyString
        \/ app_label i = Some "unknown") /\
  NoDup (map fst (by_app (get_summary issues))) /\
  sum_list (map snd (by_app (get_summary issues))) = length issues.
Proof.
  unfold get_summary.
  destruct (summary_fold_fields issues
              (mkSummary (length issues) [("error", 0); ("warning", 0); ("info", 0)] [] []))
    as (_ & _ & _ & Ha).
  rewrite Ha. simpl.
  destruct (fold_count_keys_sum summary_app issues [] (NoDup_nil_2)) as [Hnd Hs].
  split; [intros k; by rewrite fold_count_get|].
  split; [exact summary_app_unknown|].
  split; [exact Hnd|rewrite Hs; done].
Qed.

(** ** Properties of the exit code *)

(** The [check_migrations] command exits with status 1 exactly when some
    issue has severity ERROR, or [--fail-on-warning] is given and some issue
    has severity WARNING; otherwise it returns normally (status 0).  INFO
    issues never fail it. *)
Theorem handle_exit_code_spec (issues : list Issue) (fail_on_warning : bool) :
  (handle_exit_code issues fail_on_warning = 1 ↔
     (∃ i, i ∈ issues /\ severity i = ERROR)
     \/ (fail_on_warning = true /\ ∃ i, i ∈ issues /\ severity i = WARNING)) /\
  (handle_exit_code issues fail_on_warning = 0 ↔
     ¬ ((∃ i, i ∈ issues /\ severity i = ERROR)
        \/ (fail_on_warning = true /\ ∃ i, i ∈ issues /\ severity i = WARNING))).
Proof.
  rewrite handle_exit_code_cases.
  rewrite <- (nonempty_filter (fun i => severity i = ERROR)),
          <- (nonempty_filter (fun i => severity i = WARNING)).
  destruct (nonempty (filter (fun i => severity i = ERROR) issues)),
           (nonempty (filter (fun i => severity i = WARNING) issues)),
           fail_on_warning; simpl; intuition congruence.
Qed.

(** Filtering the issues against a baseline never raises the exit status
    of the command, and filtering them against the baseline generated from
    them brings it to 0, whatever [--fail-on-warning] says. *)
Theorem handle_exit_code_baseline (issues : list Issue) (baseline : list BaselineEntry)
    (fail_on_warning : bool) :
  handle_exit_code (filter_baselined_issues issues baseline) fail_on_warning
    <= handle_exit_code issues fail_on_warning /\
  handle_exit_code (filter_baselined_issues issues (generate_baseline issues))
    fail_on_warning = 0.
Proof.
  split.
  - rewrite !handle_exit_code_cases.
    assert (∀ P `{∀ x, Decision (P x)},
              nonempty (filter P (filter_baselined_issues issues baseline)) = true →
              nonempty (filter P issues) = true) as Hsub.
    { intros P ? H. apply nonempty_filter in H as (x & Hx & HP).
      apply nonempty_filter. exists x. split; [|done].
      unfold filter_baselined_issues in Hx. by apply list_elem_of_filter in Hx as [_ ?]. }
    pose proof (Hsub (fun i => severity i = ERROR) _) as HE.
    pose proof (Hsub (fun i => severity i = WARNING) _) as HW.
    destruct (nonempty (filter (fun i => severity i = ERROR)
                          (filter_baselined_issues issues baseline))),
             (nonempty (filter (fun i => severity i = WARNING)
                          (filter_baselined_issues issues baseline))),
             (nonempty (filter (fun i => severity i = ERROR) issues)),
             (nonempty (filter (fun i => severity i = WARNING) issues)),
             fail_on_warning; simpl; try lia;
      try (specialize (HE eq_refl); discriminate);
      try (specialize (HW eq_refl); discriminate).
  - unfold filter_baselined_issues. rewrite baseline_keys_of_issues.
    rewrite filter_all_baselined; [reflexivity|].
    intros i Hi. apply list_elem_of_fmap_2. exact Hi.
Qed.

(** ** Properties of the baseline filter *)

(** Filtering against one baseline and then another is filtering against
    both entries lists at once; in particular filtering twice against the
    same baseline changes nothing the second time.  Order is kept. *)
Theorem filter_baselined_compose (issues : list Issue) (b1 b2 : list BaselineEntry) :
  filter_baselined_issues (filter_baselined_issues issues b1) b2 =
    filter_baselined_issues issues (b1 ++ b2) /\
  filter_baselined_issues (filter_baselined_issues issues b1) b1 =
    filter_baselined_issues issues b1.
Proof.
  unfold filter_baselined_issues. rewrite !list_filter_filter. split.
  - apply list_filter_iff. intros i. rewrite map_app, elem_of_app. tauto.
  - apply list_filter_iff. intros i. tauto.
Qed.

(** Adopting a baseline: after a baseline is generated from the issues
    [old], a later run whose issues are [old] followed by issues [new]
    reports exactly [new], in order, provided no issue of [new] has the key
    (rule id, app label, migration name, operation) of an issue of [old].
    Message, severity, suggestion and location play no part. *)
Theorem filter_baselined_new_issues (old new : list Issue) :
  (∀ i, i ∈ new → issue_key i ∉ map issue_key old) →
  filter_baselined_issues (old ++ new) (generate_baseline old) = new.
Proof.
  intros Hnew. unfold filter_baselined_issues. rewrite baseline_keys_of_issues.
  rewrite filter_app, filter_all_baselined.
  - simpl. apply filter_keep_all. exact Hnew.
  - intros i Hi. apply list_elem_of_fmap_2. exact Hi.
Qed.

Lemma filter_baselined_new_issues_witness :
  let old := [mkIssue "SM001" ERROR "AddField(user.email)" "m" None None None
                (Some "testapp") (Some "0001_initial")] in
  let new := [mkIssue "SM001" ERROR "AddField(user.phone)" "m" None None None
                (Some "testapp") (Some "0002_phone")] in
  (∀ i, i ∈ new → issue_key i ∉ map issue_key old) /\
  filter_baselined_issues (old ++ new) (generate_baseline old) = new.
Proof.
  intros old new.
  assert (∀ i, i ∈ new → issue_key i ∉ map issue_key old) as H.
  { intros i Hi. apply list_elem_of_singleton in Hi. subst i. vm_compute.
    intros Hk. apply list_elem_of_singleton in Hk. discriminate. }
  split; [exact H|]. apply (filter_baselined_new_issues old new H).
Defined.

(** ** Helper lemmas for [conf.py] *)

Lemma RULE_CATEGORIES_keys_NoDup : NoDup (map fst RULE_CATEGORIES).
Proof. vm_compute. repeat constructor; vm_compute; intros H; repeat (inversion H as [|? ? ? H']; subst; clear H; rename H' into H). Qed.

Lemma get_rules_in_category_elem c rs :
  (c, rs) ∈ RULE_CATEGORIES → get_rules_in_category c = rs.
Proof.
  intros H. unfold RULE_CATEGORIES in H.
  repeat (apply elem_of_cons in H as [H|H]; [injection H as -> ->; reflexivity|]).
  by apply not_elem_of_nil in H.
Qed.

Lemma get_rules_in_category_none c :
  c ∉ map fst RULE_CATEGORIES → get_rules_in_category c = [].
Proof.
  intros Hc. unfold get_rules_in_category.
  destruct (list_find _ _) as [[i [c' rs]]|] eqn:Hf; [|reflexivity].
  apply list_find_Some in Hf as (Hi & Hc' & _). simpl in Hc'. subst c'.
  exfalso. apply Hc. apply list_elem_of_fmap. exists (c, rs).
  split; [done|]. by eapply list_elem_of_lookup_2.
Qed.

Lemma map_fst_filter_NoDup {B} (P : string * B → Prop) `{∀ x, Decision (P x)}
    (l : list (string * B)) :
  NoDup (map fst l) → NoDup (map fst (filter P l)).
Proof.
  induction l as [|[k v] l IH]; simpl; intros Hnd; [constructor|].
  apply NoDup_cons in Hnd as [Hk Hnd].
  rewrite filter_cons. destruct (decide (P (k, v))); simpl; [|by apply IH].
  constructor; [|by apply IH].
  intros Hin. apply Hk. apply list_elem_of_fmap in Hin as ([k' v'] & Hk' & Hin).
  simpl in Hk'. subst k'. apply list_elem_of_filter in Hin as [_ Hin].
  by apply (list_elem_of_fmap_2 fst) in Hin.
Qed.

(** ** Properties of the category helpers *)

(** [get_category_for_rule r] lists, without repetition, exactly the
    categories of [get_all_categories] whose rule list
    ([get_rules_in_category]) contains [r]. *)
Theorem get_category_for_rule_spec (r c : string) :
  (c ∈ get_category_for_rule r ↔
     c ∈ get_all_categories /\ r ∈ get_rules_in_category c) /\
  NoDup (get_category_for_rule r).
Proof.
  split.
  - unfold get_category_for_rule, get_all_categories. split.
    + intros Hc. apply list_elem_of_fmap in Hc as ([c' rs] & -> & Hin).
      apply list_elem_of_filter in Hin as [Hr Hin]. simpl in *.
      split; [by apply (list_elem_of_fmap_2 fst) in Hin|].
      by rewrite (get_rules_in_category_elem c' rs Hin).
    + intros [Hc Hr]. apply list_elem_of_fmap in Hc as ([c' rs] & Hc' & Hin).
      simpl in Hc'. subst c'.
      rewrite (get_rules_in_category_elem c rs Hin) in Hr.
      apply (list_elem_of_fmap_2 fst (filter (fun p => r ∈ p.2) RULE_CATEGORIES) (c, rs)).
      by apply list_elem_of_filter.
  - apply map_fst_filter_NoDup, RULE_CATEGORIES_keys_NoDup.
Qed.

(** A rule belongs to the rules of a list of categories
    ([get_rules_from_categories], the set behind ENABLED_CATEGORIES and
    DISABLED_CATEGORIES) exactly when one of its categories
    ([get_category_for_rule]) is in the list; names of unknown categories
    contribute no rule. *)
Theorem rules_from_categories_by_category (r : string) (categories : list string) :
  (r ∈ get_rules_from_categories categories ↔
     ∃ c, c ∈ categories /\ c ∈ get_category_for_rule r) /\
  (∀ c, c ∉ get_all_categories → get_rules_in_category c = []).
Proof.
  split; [|exact get_rules_in_category_none].
  rewrite elem_of_rules_from_categories. split.
  - intros (c & Hc & Hr). exists c. split; [done|].
    unfold get_category_for_rule.
    destruct (decide (c ∈ map fst RULE_CATEGORIES)) as [Hk|Hk].
    + apply list_elem_of_fmap in Hk as ([c' rs] & Hc' & Hin). simpl in Hc'. subst c'.
      rewrite (get_rules_in_category_elem c rs Hin) in Hr.
      apply (list_elem_of_fmap_2 fst (filter (fun p => r ∈ p.2) RULE_CATEGORIES) (c, rs)).
      by apply list_elem_of_filter.
    + rewrite get_rules_in_category_none in Hr by done.
      by apply not_elem_of_nil in Hr.
  - intros (c & Hc & Hcat). exists c. split; [done|].
    unfold get_category_for_rule in Hcat.
    apply list_elem_of_fmap in Hcat as ([c' rs] & -> & Hin).
    apply list_elem_of_filter in Hin as [Hr Hin]. simpl in *.
    by rewrite (get_rules_in_category_elem c' rs Hin).
Qed.

(** Whitelist mode: a rule that belongs to no category (such as SM020,
    SM021 or SM029) is disabled as soon as ENABLED_CATEGORIES is non-empty,
    globally and for every app, whatever the per-app settings say. *)
Theorem uncategorised_rule_disabled_by_whitelist (cfg : Config) (r : string)
    (app : option string) :
  get_category_for_rule r = [] → ENABLED_CATEGORIES cfg ≠ [] →
  is_rule_enabled cfg r = false /\ is_rule_enabled_for_app cfg r app = false.
Proof.
  intros Hnone Hen.
  assert (is_rule_enabled cfg r = false) as Hg.
  { unfold is_rule_enabled.
    destruct (is_rule_disabled cfg r); [done|].
    unfold is_rule_disabled_by_category.
    destruct (ENABLED_CATEGORIES cfg) as [|e es] eqn:He; [done|]. simpl.
    rewrite bool_decide_eq_true_2; [done|].
    intros Hr. apply rules_from_categories_by_category in Hr as (c & _ & Hc).
    rewrite Hnone in Hc. by apply not_elem_of_nil in Hc. }
  split; [exact Hg|].
  destruct app as [a|]; [|exact Hg].
  rewrite is_rule_enabled_for_app_eq.
  destruct (get_app_config cfg a); [|exact Hg].
  destruct (app_config_truthy a0); [|exact Hg].
  rewrite Hg. apply andb_false_r.
Qed.

Lemma uncategorised_rule_disabled_by_whitelist_witness :
  get_category_for_rule "SM020" = [] /\
  ENABLED_CATEGORIES (mkConfig [] [] ["high-risk"] ∅ [] ∅) ≠ [] /\
  is_rule_enabled (mkConfig [] [] ["high-risk"] ∅ [] ∅) "SM020" = false /\
  is_rule_enabled_for_app (mkConfig [] [] ["high-risk"] ∅ [] ∅) "SM020"
    (Some "testapp") = false.
Proof.
  assert (get_category_for_rule "SM020" = []) as H1 by reflexivity.
  assert (ENABLED_CATEGORIES (mkConfig [] [] ["high-risk"] ∅ [] ∅) ≠ []) as H2
    by discriminate.
  split; [exact H1|]. split; [exact H2|].
  exact (uncategorised_rule_disabled_by_whitelist _ "SM020" (Some "testapp") H1 H2).
Defined.

(** ** Helper lemmas for [analyze_all] and [analyze_new_migrations] *)

Lemma app_migrations_elem_disk ld app ms p :
  app_migrations ld app = Ok ms → p ∈ ms →
  (app, p.1) ∈ disk_migrations ld /\ graph_nodes ld (app, p.1) = Some p.2.
Proof.
  intros Hms Hp. destruct (res_mapM_elem _ _ _ _ Hms Hp) as ([app' name] & Hk & Hg).
  apply list_elem_of_filter in Hk as [Happ Hk]. simpl in Happ. subst app'.
  unfold get_migration in Hg. simpl in Hg.
  destruct (graph_nodes ld (app, name)) as [m|] eqn:Hn; simpl in Hg; [|discriminate].
  injection Hg as <-. simpl. by split.
Qed.

Lemma analyze_app_elem cfg a ld app issues i :
  analyze_app cfg a ld app = Ok issues → i ∈ issues →
  ∃ name m, (app, name) ∈ disk_migrations ld /\ graph_nodes ld (app, name) = Some m /\
            i ∈ analyze_migration cfg a m (Some app) (Some name).
Proof.
  unfold analyze_app. destruct (app_migrations ld app) as [ms|k] eqn:Hms;
    simpl; [|discriminate].
  intros Hi Hin. injection Hi as <-.
  apply list_elem_of_In, in_concat in Hin as (l & Hl & Hin).
  apply in_map_iff in Hl as ([name m] & <- & Hp).
  apply list_elem_of_In in Hp, Hin.
  assert ((name, m) ∈ ms) as Hp'.
  { unfold sort_by_name in Hp. by rewrite merge_sort_Permutation in Hp. }
  destruct (app_migrations_elem_disk _ _ _ _ Hms Hp') as [Hd Hg].
  exists name, m. by repeat split.
Qed.

Lemma analyze_apps_elem cfg a ld ex apps issues i :
  analyze_apps cfg a ld ex apps = Ok issues → i ∈ issues →
  ∃ app, app ∈ apps /\ (app ∉ ex) /\ (∃ is1, analyze_app cfg a ld app = Ok is1 /\ i ∈ is1).
Proof.
  revert issues. induction apps as [|app apps IH]; simpl; intros issues Hr Hi.
  - injection Hr as <-. by apply not_elem_of_nil in Hi.
  - case_bool_decide as Hex.
    + destruct (IH _ Hr Hi) as (app' & ? & ? & ?). exists app'. by split; [right|].
    + destruct (analyze_app cfg a ld app) as [is1|k] eqn:H1; simpl in Hr; [|discriminate].
      destruct (analyze_apps cfg a ld ex apps) as [is2|k] eqn:H2; simpl in Hr;
        [|discriminate].
      injection Hr as <-. apply elem_of_app in Hi as [Hi|Hi].
      * exists app. split; [left|]. split; [done|]. by exists is1.
      * destruct (IH _ eq_refl Hi) as (app' & ? & ? & ?).
        exists app'. by split; [right|].
Qed.

Lemma analyze_new_migrations_loop_eq cfg a ld applied lbl keys :
  analyze_new_migrations_loop cfg a ld applied lbl keys =
  res_bind
    (res_mapM (fun k => res_bind (get_migration ld k) (fun m =>
                 Ok (analyze_migration cfg a m (Some k.1) (Some k.2))))
       (filter (fun k => (k ∉ applied) /\
                  (lbl = None \/ lbl = Some EmptyString \/ lbl = Some k.1)) keys))
    (fun xs => Ok (concat xs)).
Proof.
  induction keys as [|[app name] keys IH]; simpl; [reflexivity|].
  rewrite filter_cons.
  case_bool_decide as Happ.
  - rewrite decide_False by tauto. exact IH.
  - destruct (match lbl with
              | Some l => bool_decide (l ≠ EmptyString) && bool_decide (app ≠ l)
              | None => false end) eqn:Hsel.
    + rewrite decide_False; [exact IH|].
      destruct lbl as [l|]; [|discriminate].
      apply andb_true_iff in Hsel as [H1 H2].
      apply bool_decide_eq_true in H1, H2. simpl.
      intros [_ [H|[H|H]]]; congruence.
    + rewrite decide_True.
      2: { split; [done|]. destruct lbl as [l|]; [|by left].
           right. destruct (decide (l = EmptyString)) as [->|Hl]; [by left|].
           right. destruct (decide (app = l)) as [->|Ha]; [done|].
           rewrite !bool_decide_eq_true_2 in Hsel by done. discriminate. }
      simpl. unfold get_migration. simpl.
      destruct (graph_nodes ld (app, name)) as [m|]; simpl; [|reflexivity].
      rewrite IH.
      destruct (res_mapM _ _) as [xs|k]; simpl; reflexivity.
Qed.

Lemma res_mapM_KeyError {A B} (f : A → Result B) (l : list A) x k :
  x ∈ l → f x = KeyError k → ∃ k', res_mapM f l = KeyError k'.
Proof.
  induction l as [|y l IH]; intros Hx Hf; [by apply not_elem_of_nil in Hx|].
  simpl. destruct (f y) as [b|k'] eqn:Hy; simpl; [|by exists k'].
  apply elem_of_cons in Hx as [->|Hx]; [congruence|].
  destruct (IH Hx Hf) as [k' ->]. simpl. by exists k'.
Qed.

(** ** Properties of [analyze_all] and [analyze_new_migrations] *)

(** Provenance in [analyze_all]: every issue of a run that returns comes from
    [analyze_migration] on a changeset [(app, name)] that is on disk, whose
    app is not excluded (by [exclude_apps], or EXCLUDED_APPS when it is
    [None]), and that the loader's graph resolves, analysed under that app
    label and name. *)
Theorem analyze_all_provenance (cfg : Config) (a : Analyzer) (ld : Loader)
    (exclude_apps : option (list string)) (issues : list Issue) (i : Issue) :
  analyze_all cfg a ld exclude_apps = Ok issues → i ∈ issues →
  ∃ app name m,
    (app, name) ∈ disk_migrations ld /\
    (app ∉ match exclude_apps with None => EXCLUDED_APPS cfg | Some l => l end) /\
    graph_nodes ld (app, name) = Some m /\
    i ∈ analyze_migration cfg a m (Some app) (Some name).
Proof.
  unfold analyze_all. intros Hr Hi.
  destruct (analyze_apps_elem _ _ _ _ _ _ _ Hr Hi) as (app & _ & Hex & is1 & H1 & Hi1).
  destruct (analyze_app_elem _ _ _ _ _ _ H1 Hi1) as (name & m & Hd & Hg & Hm).
  exists app, name, m. by repeat split.
Qed.

Lemma analyze_all_provenance_witness :
  ∃ issues, analyze_all DEFAULTS (pg_analyzer alter_rules) ld_AB None = Ok issues /\
    issues ≠ [] /\
    ∀ i, i ∈ issues → ∃ app name m,
      (app, name) ∈ disk_migrations ld_AB /\ (app ∉ EXCLUDED_APPS DEFAULTS) /\
      graph_nodes ld_AB (app, name) = Some m /\
      i ∈ analyze_migration DEFAULTS (pg_analyzer alter_rules) m (Some app) (Some name).
Proof.
  destruct (analyze_all DEFAULTS (pg_analyzer alter_rules) ld_AB None) as [issues|k] eqn:H.
  - exists issues. split; [reflexivity|]. split.
    + vm_compute in H. injection H as <-. discriminate.
    + intros i Hi. exact (analyze_all_provenance _ _ _ None issues i H Hi).
  - vm_compute in H. discriminate.
Defined.

(** [analyze_new_migrations] analyses, in the order of
    [loader.disk_migrations], the changesets that are not applied and
    belong to the requested app ([app_label] of [None] or the empty string
    selects every app), each under its own app label and name, and
    concatenates the issues; it raises the [KeyError] of the first selected
    changeset the loader's graph does not resolve. *)
Theorem analyze_new_migrations_spec (cfg : Config) (a : Analyzer) (ld : Loader)
    (applied : list (string * string)) (app_label : option string) :
  analyze_new_migrations cfg a ld applied app_label =
  res_bind
    (res_mapM (fun k => res_bind (get_migration ld k) (fun m =>
                 Ok (analyze_migration cfg a m (Some k.1) (Some k.2))))
       (filter (fun k => (k ∉ applied) /\
                  (app_label = None \/ app_label = Some EmptyString
                   \/ app_label = Some k.1))
          (disk_migrations ld)))
    (fun xs => Ok (concat xs)).
Proof. apply analyze_new_migrations_loop_eq. Qed.

(** When every changeset on disk of the requested app is applied,
    [analyze_new_migrations] returns no issue and never reads the graph. *)
Theorem analyze_new_migrations_all_applied (cfg : Config) (a : Analyzer) (ld : Loader)
    (applied : list (string * string)) (app_label : option string) :
  (∀ k, k ∈ disk_migrations ld →
     app_label = None \/ app_label = Some EmptyString \/ app_label = Some k.1 →
     k ∈ applied) →
  analyze_new_migrations cfg a ld applied app_label = Ok [].
Proof.
  intros Hall. unfold analyze_new_migrations. rewrite analyze_new_migrations_loop_eq.
  revert Hall. generalize (disk_migrations ld) as l. intros l Hall.
  induction l as [|k l IH]; [reflexivity|].
  rewrite filter_cons_False.
  - apply IH. intros k' Hk'. apply Hall. by right.
  - intros [Hna Hsel]. apply Hna. apply Hall; [left|exact Hsel].
Qed.

Lemma analyze_new_migrations_all_applied_witness :
  (∀ k, k ∈ disk_migrations ld_AB →
     Some "testapp" = None \/ Some "testapp" = Some EmptyString \/ Some "testapp" = Some k.1 →
     k ∈ disk_migrations ld_AB) /\
  analyze_new_migrations DEFAULTS (pg_analyzer alter_rules) ld_AB
    (disk_migrations ld_AB) (Some "testapp") = Ok [].
Proof.
  assert (∀ k, k ∈ disk_migrations ld_AB →
     Some "testapp" = None \/ Some "testapp" = Some EmptyString \/ Some "testapp" = Some k.1 →
     k ∈ disk_migrations ld_AB) as H by (intros k Hk _; exact Hk).
  split; [exact H|].
  exact (analyze_new_migrations_all_applied _ _ ld_AB (disk_migrations ld_AB) _ H).
Defined.

(** An unapplied changeset of the requested app that is on disk but absent
    from the loader's graph (as the changesets replaced by a squash are)
    makes [analyze_new_migrations] raise [KeyError] instead of returning
    issues. *)
Theorem analyze_new_migrations_missing_node_raises (cfg : Config) (a : Analyzer)
    (ld : Loader) (applied : list (string * string)) (app_label : option string)
    (k : string * string) :
  k ∈ disk_migrations ld → (k ∉ applied) →
  app_label = None \/ app_label = Some EmptyString \/ app_label = Some k.1 →
  graph_nodes ld k = None →
  ok_part (analyze_new_migrations cfg a ld applied app_label) = None.
Proof.
  intros Hk Hna Hsel Hg. unfold analyze_new_migrations.
  rewrite analyze_new_migrations_loop_eq.
  match goal with
  | |- context [res_mapM ?f ?l] =>
      assert (∃ k', res_mapM f l = KeyError k') as [k' ->]
  end; [|reflexivity].
  apply (res_mapM_KeyError _ _ k k).
  - apply list_elem_of_filter. split; [by split|exact Hk].
  - unfold get_migration. by rewrite Hg.
Qed.

Lemma analyze_new_migrations_missing_node_raises_witness :
  ("testapp", "0001_initial") ∈ disk_migrations ld_squash /\
  (("testapp", "0001_initial") ∉ ([] : list (string * string))) /\
  graph_nodes ld_squash ("testapp", "0001_initial") = None /\
  ok_part (analyze_new_migrations DEFAULTS (pg_analyzer alter_rules) ld_squash []
             (Some "testapp")) = None.
Proof.
  assert (("testapp", "0001_initial") ∈ disk_migrations ld_squash) as H1 by left.
  assert (("testapp", "0001_initial") ∉ ([] : list (string * string))) as H2
    by apply not_elem_of_nil.
  assert (graph_nodes ld_squash ("testapp", "0001_initial") = None) as H3
    by reflexivity.
  split; [exact H1|]. split; [exact H2|]. split; [exact H3|].
  apply (analyze_new_migrations_missing_node_raises _ _ _ _ _ _ H1 H2); [|exact H3].
  right. right. reflexivity.
Defined.

(** ** Properties of the SM004, SM005, SM001 and SM033 checks *)

(** SM004 with the old field known: an [AlterField] is accepted exactly when
    the field class is unchanged and either the change makes a NOT NULL
    column nullable, or null, [max_length] and [unique] are all unchanged;
    the default plays no part, and a nullable-making change is accepted
    even if it also changes [max_length] or [unique].  Other operations are
    never flagged. *)
Theorem AlterColumnTypeRule_check_with_old_field (op : Operation) (m : Migration)
    (v : string) (old : Field) :
  AlterColumnTypeRule_check op m v (Some old) = None ↔
  match op with
  | AlterField _ _ f =>
      field_class old = field_class f /\
      ((null old = false /\ null f = true) \/
       (null old = null f /\ max_length old = max_length f /\ unique old = unique f))
  | _ => True
  end.
Proof.
  destruct op as [mn n f|mn n f|mn n|sql rev|t]; simpl; try tauto.
  assert (AlterColumnTypeRule_is_safe_change_with_old_field old f = true ↔
          field_class old = field_class f /\
          ((null old = false /\ null f = true) \/
           (null old = null f /\ max_length old = max_length f /\ unique old = unique f)))
    as Hsafe.
  { unfold AlterColumnTypeRule_is_safe_change_with_old_field.
    destruct (null old), (null f), (unique old), (unique f); simpl;
      repeat case_bool_decide; simpl; intuition congruence. }
  rewrite <- Hsafe.
  destruct (AlterColumnTypeRule_is_safe_change_with_old_field old f); split; done.
Qed.

(** SM004 without the old field (as [analyze_migration] always calls it):
    an [AlterField] is accepted exactly when the new field is a
    [BooleanField], [NullBooleanField] or [TextField], or is nullable; any
    other [AlterField], even one that changes nothing in the schema, is
    flagged.  Other operations are never flagged. *)
Theorem AlterColumnTypeRule_check_heuristic (op : Operation) (m : Migration)
    (v : string) :
  AlterColumnTypeRule_check op m v None = None ↔
  match op with
  | AlterField _ _ f =>
      field_class f ∈ ["BooleanField"; "NullBooleanField"; "TextField"] \/ null f = true
  | _ => True
  end.
Proof.
  destruct op as [mn n f|mn n f|mn n|sql rev|t]; simpl; try tauto.
  unfold AlterColumnTypeRule_is_likely_safe_change.
  case_bool_decide as H1.
  - split; [intros _; left|done].
    repeat (apply elem_of_cons in H1 as [H1|H1]; [rewrite H1; repeat constructor|]).
    by apply not_elem_of_nil in H1.
  - case_bool_decide as H2.
    + split; [intros _; left|done]. rewrite H2. right. right. left.
    + destruct (null f); [split; [intros _; by right|done]|].
      split; [discriminate|]. intros [H|H]; [exfalso|discriminate].
      apply elem_of_cons in H as [H|H]; [apply H1; rewrite H; left|].
      apply elem_of_cons in H as [H|H]; [apply H1; rewrite H; right; left|].
      apply elem_of_cons in H as [H|H]; [by apply H2|].
      by apply not_elem_of_nil in H.
Qed.

(** SM005 flags exactly the [AddField] operations of a [ForeignKey] or
    [OneToOneField] whose [db_constraint] is not [False] (a field without
    the attribute counts as constrained), whatever the vendor and old field
    passed to [check]; the issue is a WARNING of rule SM005. *)
Theorem AddForeignKeyValidatesRule_check_spec (op : Operation) (m : Migration)
    (v : string) (old : option Field) :
  match AddForeignKeyValidatesRule_check op m v old with
  | Some i => BaseRule.rule_id AddForeignKeyValidatesRule = rule_id i /\
              rule_id i = "SM005" /\ severity i = WARNING
  | None => True
  end /\
  (is_Some (AddForeignKeyValidatesRule_check op m v old) ↔
   ∃ mn n f, op = AddField mn n f /\
     field_class f ∈ ["ForeignKey"; "OneToOneField"] /\ db_constraint f ≠ Some false).
Proof.
  destruct op as [mn n f|mn n f|mn n|sql rev|t]; simpl;
    try (split; [done|]; split; [by intros [? ?]|intros (? & ? & ? & ? & _); discriminate]).
  case_bool_decide as Hc.
  - split; [done|]. split; [by intros [? ?]|].
    intros (mn' & n' & f' & Heq & Hin & _). injection Heq as -> -> ->. contradiction.
  - destruct (db_constraint f) as [[]|] eqn:Hdb; simpl.
    + split; [done|]. split; [intros _|done].
      exists mn, n, f. split; [done|]. split; [by destruct (decide (field_class f ∈ ["ForeignKey"; "OneToOneField"]))|by rewrite Hdb].
    + split; [done|]. split; [by intros [? ?]|].
      intros (mn' & n' & f' & Heq & _ & Hne). injection Heq as -> -> ->. contradiction.
    + split; [done|]. split; [intros _|done].
      exists mn, n, f. split; [done|]. split; [by destruct (decide (field_class f ∈ ["ForeignKey"; "OneToOneField"]))|by rewrite Hdb].
Qed.

(** SM001 and SM033 never both flag the same operation. *)
Theorem SM001_SM033_exclusive (op : Operation) (m : Migration) (v : string)
    (old : option Field) :
  NotNullWithoutDefaultRule_check op m v old = None \/
  AddFieldWithDefaultRule_check op m v old = None.
Proof.
  destruct op as [mn n f|mn n f|mn n|sql rev|t]; simpl; auto.
  unfold has_default_method.
  destruct (default f) eqn:Hd; [left|right].
  - destruct (db_default f); simpl; [|by rewrite andb_false_r, andb_false_l].
    by rewrite andb_false_r, !andb_false_l.
  - case_bool_decide; [done|]. by destruct (null f).
Qed.

(** On an [AddField] of a NOT NULL column that is not an auto field nor a
    primary key, has no [db_default] and no [db_constraint=False], exactly
    one of SM001 and SM033 flags it: SM001 when the field has no default,
    SM033 when it has one. *)
Theorem SM001_SM033_one_fires (mn n : string) (f : Field) (m : Migration)
    (v : string) (old : option Field) :
  null f = false → primary_key f = false →
  (field_class f ∉ ["AutoField"; "BigAutoField"; "SmallAutoField"]) →
  db_default f = None → db_constraint f ≠ Some false →
  (is_Some (NotNullWithoutDefaultRule_check (AddField mn n f) m v old) ↔ default f = None) /\
  (is_Some (AddFieldWithDefaultRule_check (AddField mn n f) m v old) ↔ default f ≠ None).
Proof.
  intros Hnull Hpk Hauto Hdb Hcon. simpl. unfold has_default_method.
  rewrite Hnull, Hpk, Hdb, bool_decide_eq_false_2 by exact Hauto.
  assert ((match db_constraint f with Some b => negb b | None => false end) = false) as ->.
  { destruct (db_constraint f) as [[]|]; simpl; [done| |done]. by destruct Hcon. }
  destruct (default f); simpl.
  - split; split; try done; by intros [? ?].
  - split; split; try done; by intros [? ?].
Qed.

Lemma SM001_SM033_one_fires_witness :
  null (CharField 255 false) = false /\ primary_key (CharField 255 false) = false /\
  (field_class (CharField 255 false) ∉ ["AutoField"; "BigAutoField"; "SmallAutoField"]) /\
  db_default (CharField 255 false) = None /\ db_constraint (CharField 255 false) ≠ Some false /\
  (is_Some (NotNullWithoutDefaultRule_check (AddField "user" "email" (CharField 255 false))
              mig_A "postgresql" None) ↔ default (CharField 255 false) = None) /\
  (is_Some (AddFieldWithDefaultRule_check (AddField "user" "email" (CharField 255 false))
              mig_A "postgresql" None) ↔ default (CharField 255 false) ≠ None).
Proof.
  assert (null (CharField 255 false) = false) as H1 by reflexivity.
  assert (primary_key (CharField 255 false) = false) as H2 by reflexivity.
  assert (field_class (CharField 255 false) ∉ ["AutoField"; "BigAutoField"; "SmallAutoField"])
    as H3 by (vm_compute; intros H; repeat (apply elem_of_cons in H as [H|H]; [discriminate|]);
              by apply not_elem_of_nil in H).
  assert (db_default (CharField 255 false) = None) as H4 by reflexivity.
  assert (db_constraint (CharField 255 false) ≠ Some false) as H5 by discriminate.
  do 5 (split; [assumption|]).
  exact (SM001_SM033_one_fires "user" "email" _ mig_A "postgresql" None H1 H2 H3 H4 H5).
Defined.

(** ** Properties of [get_operation_line_number] *)

Lemma scan_operations_some lines k os bd co idx n :
  scan_operations lines k os bd co idx = Some n →
  (k ≤ n)%nat /\
  (∃ l, lines !! (n - k) = Some l /\ is_operation_line l = true /\
        (str_contains "operations = [" l || str_contains "operations=[" l) = false) /\
  (os ≠ None \/
   ∃ h hl, (k ≤ h < n)%nat /\ lines !! (h - k) = Some hl /\
           (str_contains "operations = [" hl || str_contains "operations=[" hl) = true).
Proof.
  revert k os bd co.
  induction lines as [|line rest IH]; intros k os bd co H; simpl in H; [discriminate|].
  assert (∀ os' : option nat, ((k ≤ n)%nat /\
     (∃ l, (line :: rest) !! (n - k) = Some l /\ is_operation_line l = true /\
        (str_contains "operations = [" l || str_contains "operations=[" l) = false) /\
     (os' ≠ None \/ ∃ h hl, (k ≤ h < n)%nat /\ (line :: rest) !! (h - k) = Some hl /\
        (str_contains "operations = [" hl || str_contains "operations=[" hl) = true))
     ∨ ((S k ≤ n)%nat /\
     (∃ l, rest !! (n - S k) = Some l /\ is_operation_line l = true /\
        (str_contains "operations = [" l || str_contains "operations=[" l) = false) /\
     (os' ≠ None \/ ∃ h hl, (S k ≤ h < n)%nat /\ rest !! (h - S k) = Some hl /\
        (str_contains "operations = [" hl || str_contains "operations=[" hl) = true)) →
     (k ≤ n)%nat /\
     (∃ l, (line :: rest) !! (n - k) = Some l /\ is_operation_line l = true /\
        (str_contains "operations = [" l || str_contains "operations=[" l) = false) /\
     (os' ≠ None \/ ∃ h hl, (k ≤ h < n)%nat /\ (line :: rest) !! (h - k) = Some hl /\
        (str_contains "operations = [" hl || str_contains "operations=[" hl) = true))
    as Hshift.
  { intros os' [Hc|(Hk & (l & Hl & Hop & Hnh) & Hos)]; [exact Hc|].
    split; [lia|]. split.
    - exists l. replace (n - k) with (S (n - S k)) by lia. done.
    - destruct Hos as [Hos|(h & hl & Hh & Hhl & Hhh)]; [by left|right].
      exists h, hl. split; [lia|].
      replace (h - k) with (S (h - S k)) by lia. done. }
  destruct (str_contains "operations = [" line || str_contains "operations=[" line) eqn:Hh.
  - apply IH in H as (Hk & (l & Hl & Hop & Hnh) & _).
    split; [lia|]. split.
    + exists l. replace (n - k) with (S (n - S k)) by lia. done.
    + right. exists k, line. split; [lia|]. rewrite Nat.sub_diag. by split.
  - destruct os as [s|].
    + destruct (is_operation_line line) eqn:Hop.
      * destruct (decide ((co + 1)%Z = Z.of_nat idx)) as [Hi|Hi].
        -- rewrite bool_decide_eq_true_2 in H by exact Hi. injection H as <-.
           split; [lia|]. split; [|by left].
           exists line. rewrite Nat.sub_diag. by split.
        -- rewrite bool_decide_eq_false_2 in H by exact Hi.
           destruct (decide ((bd + bracket_delta line) <= 0)%Z) as [Hb|Hb].
           ++ rewrite bool_decide_eq_true_2 in H by exact Hb. discriminate.
           ++ rewrite bool_decide_eq_false_2 in H by exact Hb.
              apply IH in H. apply (Hshift (Some s)). by right.
      * destruct (decide ((bd + bracket_delta line) <= 0)%Z) as [Hb|Hb].
        -- rewrite bool_decide_eq_true_2 in H by exact Hb. discriminate.
        -- rewrite bool_decide_eq_false_2 in H by exact Hb.
           apply IH in H. apply (Hshift (Some s)). by right.
    + apply IH in H. apply (Hshift None). by right.
Qed.

Lemma scan_operations_mono lines k os bd co i j n1 n2 :
  (co < Z.of_nat i)%Z → i < j →
  scan_operations lines k os bd co i = Some n1 →
  scan_operations lines k os bd co j = Some n2 → n1 < n2.
Proof.
  revert k os bd co.
  induction lines as [|line rest IH]; intros k os bd co Hco Hij H1 H2;
    simpl in H1, H2; [discriminate|].
  destruct (str_contains "operations = [" line || str_contains "operations=[" line).
  { exact (IH _ _ _ _ Hco Hij H1 H2). }
  destruct os as [s|]; [|exact (IH _ _ _ _ Hco Hij H1 H2)].
  destruct (is_operation_line line).
  - destruct (decide ((co + 1)%Z = Z.of_nat i)) as [Hi|Hi].
    + rewrite bool_decide_eq_true_2 in H1 by exact Hi. injection H1 as <-.
      rewrite bool_decide_eq_false_2 in H2 by lia.
      destruct (decide ((bd + bracket_delta line) <= 0)%Z) as [Hb|Hb].
      * rewrite bool_decide_eq_true_2 in H2 by exact Hb. discriminate.
      * rewrite bool_decide_eq_false_2 in H2 by exact Hb.
        apply scan_operations_some in H2 as [Hge _]. lia.
    + rewrite bool_decide_eq_false_2 in H1 by exact Hi.
      rewrite bool_decide_eq_false_2 in H2 by lia.
      destruct (decide ((bd + bracket_delta line) <= 0)%Z) as [Hb|Hb].
      * rewrite bool_decide_eq_true_2 in H1 by exact Hb. discriminate.
      * rewrite bool_decide_eq_false_2 in H1, H2 by exact Hb.
        refine (IH _ _ _ _ _ Hij H1 H2). lia.
  - destruct (decide ((bd + bracket_delta line) <= 0)%Z) as [Hb|Hb].
    + rewrite bool_decide_eq_true_2 in H1 by exact Hb. discriminate.
    + rewrite bool_decide_eq_false_2 in H1, H2 by exact Hb.
      exact (IH _ _ _ _ Hco Hij H1 H2).
Qed.

(** A line number found by [get_operation_line_number] is a line of the
    file (1-based) whose stripped text starts with [migrations.] or
    [operations.], that is not itself an [operations = [] line, and that
    comes after such an [operations = [] line. *)
Theorem get_operation_line_number_sound (lines : list string) (operation_index : nat) :
  match get_operation_line_number (Some lines) operation_index with
  | Some n =>
      (1 ≤ n ≤ length lines)%nat /\
      (∃ l, lines !! (n - 1) = Some l /\ is_operation_line l = true /\
            (str_contains "operations = [" l || str_contains "operations=[" l) = false) /\
      (∃ h hl, (1 ≤ h < n)%nat /\ lines !! (h - 1) = Some hl /\
            (str_contains "operations = [" hl || str_contains "operations=[" hl) = true)
  | None => True
  end.
Proof.
  simpl. destruct (scan_operations lines 1 None 0 (-1) operation_index) as [n|] eqn:H;
    [|done].
  apply scan_operations_some in H as (Hk & (l & Hl & Hop & Hnh) & [Hos|Hh]);
    [by destruct Hos|].
  split; [split; [done|]|split; [by exists l|exact Hh]].
  apply lookup_lt_Some in Hl. lia.
Qed.

(** [get_operation_line_number] gives later operations strictly later
    lines: two indices that are both found are found at distinct lines, in
    the order of the indices. *)
Theorem get_operation_line_number_increasing (file_lines : option (list string))
    (i j n1 n2 : nat) :
  i < j →
  get_operation_line_number file_lines i = Some n1 →
  get_operation_line_number file_lines j = Some n2 → n1 < n2.
Proof.
  intros Hij H1 H2. destruct file_lines as [lines|]; simpl in *; [|discriminate].
  refine (scan_operations_mono lines 1 None 0 (-1) i j n1 n2 _ Hij H1 H2). lia.
Qed.

Lemma get_operation_line_number_increasing_witness :
  (0 < 1)%nat /\
  get_operation_line_number (Some sample_migration_lines) 0 = Some 3 /\
  get_operation_line_number (Some sample_migration_lines) 1 = Some 6 /\
  (3 < 6)%nat.
Proof.
  assert (0 < 1)%nat as H0 by lia.
  assert (get_operation_line_number (Some sample_migration_lines) 0 = Some 3) as H1
    by (vm_compute; reflexivity).
  assert (get_operation_line_number (Some sample_migration_lines) 1 = Some 6) as H2
    by (vm_compute; reflexivity).
  split; [exact H0|]. split; [exact H1|]. split; [exact H2|].
  exact (get_operation_line_number_increasing _ 0 1 3 6 H0 H1 H2).
Defined.
